(** * Kannada/English interpreter: the capture-and-respond session

    A shallow embedding of [src/app.js]: the transcript accumulation of the
    recognizer's [onresult] handler, the session controller (Start, Stop,
    Reset, recognizer events), the two-provider translation cascade and the
    voice selection, with the properties the specification states about
    them.

    JavaScript strings are sequences of UTF-16 code units; they are modelled
    as lists of numbers.  Handlers mutate globals and DOM fields and call
    platform objects that may throw: they are written in a small state and
    exception monad over an explicit [World].  An element's [value] or
    [textContent] is a cell holding a string.  An [async] handler is cut at
    its [await]s: the part before suspends under a ticket, and an event of
    the loop resumes it when the awaited call settles.

    The recognizer, the network and the platform's string functions are
    parameters.  The service worker's fetch handler is modelled beside the
    session.  The install prompt, the clipboard button, the voice-count
    status line and the worker's install and activate handlers take no
    part in the session and are left out. *)

From Stdlib Require Import Ascii String DecimalString.
From Stdlib Require Import List NArith Bool Arith Lia.
From Stdlib Require Import Floats.PrimFloat.
Import ListNotations.

Set Implicit Arguments.

(* ================================================================== *)
(** ** JavaScript strings *)

Module JsString.

Definition code_unit := N.
Definition jsstring := list code_unit.

(** An ASCII literal as a JavaScript string. *)
Definition lit (s : String.string) : jsstring :=
  map N_of_ascii (list_ascii_of_string s).
Arguments lit s%_string.

Definition ELLIPSIS : code_unit := 0x2026%N.   (* … *)
Definition DANDA : code_unit := 0x0964%N.      (* । *)
Definition RIGHT_ARROW : code_unit := 0x2192%N.  (* → *)

Fixpoint eqb (s t : jsstring) : bool :=
  match s, t with
  | [], [] => true
  | c :: s', d :: t' => (c =? d)%N && eqb s' t'
  | _, _ => false
  end.

(** A string is truthy when it is not empty. *)
Definition nonempty (s : jsstring) : bool :=
  match s with [] => false | _ :: _ => true end.

(** [s.startsWith(p)] *)
Fixpoint startsWith (s p : jsstring) : bool :=
  match p, s with
  | [], _ => true
  | _ :: _, [] => false
  | d :: p', c :: s' => (c =? d)%N && startsWith s' p'
  end.

(** [s.includes(p)] *)
Fixpoint includes (s p : jsstring) : bool :=
  startsWith s p ||
  match s with
  | [] => false
  | _ :: s' => includes s' p
  end.

(** WhiteSpace and LineTerminator code units of ECMAScript, the ones
    [String.prototype.trim] strips. *)
Definition is_white_space (c : code_unit) : bool :=
  ((c =? 0x0009) || (c =? 0x000A) || (c =? 0x000B) || (c =? 0x000C) ||
   (c =? 0x000D) || (c =? 0x0020) || (c =? 0x00A0) || (c =? 0x1680) ||
   ((0x2000 <=? c) && (c <=? 0x200A)) ||
   (c =? 0x2028) || (c =? 0x2029) || (c =? 0x202F) || (c =? 0x205F) ||
   (c =? 0x3000) || (c =? 0xFEFF))%N.

Fixpoint trimStart (s : jsstring) : jsstring :=
  match s with
  | [] => []
  | c :: s' => if is_white_space c then trimStart s' else s
  end.

Definition trimEnd (s : jsstring) : jsstring := rev (trimStart (rev s)).

(** [s.trim()] *)
Definition trim (s : jsstring) : jsstring := trimEnd (trimStart s).

(** Decimal rendering of a non-negative integer, as string concatenation
    with a number produces it. *)
Definition of_N (n : N) : jsstring :=
  lit (NilEmpty.string_of_uint (N.to_uint n)).

(** Well-formed UTF-16: every surrogate is half of a pair.
    [encodeURIComponent] throws a URIError on any other string. *)
Definition is_high_surrogate (c : code_unit) : bool :=
  ((0xD800 <=? c) && (c <=? 0xDBFF))%N.
Definition is_low_surrogate (c : code_unit) : bool :=
  ((0xDC00 <=? c) && (c <=? 0xDFFF))%N.

Fixpoint isWellFormed (s : jsstring) : bool :=
  match s with
  | [] => true
  | c :: s' =>
      if is_high_surrogate c then
        match s' with
        | d :: s'' => is_low_surrogate d && isWellFormed s''
        | [] => false
        end
      else negb (is_low_surrogate c) && isWellFormed s'
  end.

(** ASCII lower-casing: what [toLowerCase] does on strings of ASCII
    letters, digits and hyphens such as language tags. *)
Definition ascii_lower (c : code_unit) : code_unit :=
  if ((65 <=? c) && (c <=? 90))%N then (c + 32)%N else c.
Definition asciiToLowerCase (s : jsstring) : jsstring := map ascii_lower s.

End JsString.
Import JsString.
Arguments lit s%_string.

(* ================================================================== *)
(** ** Sentence counting *)

(** The regular expressions of the program are alternations of character
    classes; each match consumes exactly one code unit. *)
Inductive regex : Type :=
| Class (cs : list code_unit)
| Alt (r1 r2 : regex).

Fixpoint accepts (r : regex) (c : code_unit) : bool :=
  match r with
  | Class cs => existsb (N.eqb c) cs
  | Alt r1 r2 => accepts r1 c || accepts r2 c
  end.

(** All matches of a global regular expression, left to right. *)
Fixpoint matches (r : regex) (t : jsstring) : list jsstring :=
  match t with
  | [] => []
  | c :: t' => if accepts r c then [c] :: matches r t' else matches r t'
  end.

(** [t.match(r)] for a global [r]: the array of matches, or null when
    there is none. *)
Definition str_match (t : jsstring) (r : regex) : option (list jsstring) :=
  match matches r t with
  | [] => None
  | ms => Some ms
  end.

(** [/[\.!?…]|[।]/g] *)
Definition SENTENCE_END : regex :=
  Alt (Class (lit ".!?" ++ [ELLIPSIS])) (Class [DANDA]).

Definition MAX_SENTENCES : nat := 5.

(** [const sentenceCount = (t) => (t.match(/[\.!?…]|[।]/g) || []).length] *)
Definition sentenceCount (t : jsstring) : nat :=
  List.length (match str_match t SENTENCE_END with
          | Some ms => ms
          | None => []
          end).

(* ================================================================== *)
(** ** Values, exceptions and the handler monad *)

(** What [JSON.parse] produces.  Numbers are IEEE doubles. *)
#[local] Unset Elimination Schemes.
Inductive json : Type :=
| JNull
| JBool (b : bool)
| JNum (x : float)
| JStr (s : jsstring)
| JArr (items : list json)
| JObj (fields : list (jsstring * json)).
#[local] Set Elimination Schemes.

(** The own property [key] of a parsed object; of duplicate keys the last
    one wins. *)
Fixpoint own_property (key : jsstring) (fields : list (jsstring * json))
  : option json :=
  match fields with
  | [] => None
  | (k, v) :: rest =>
      match own_property key rest with
      | Some v' => Some v'
      | None => if JsString.eqb k key then Some v else None
      end
  end.

(** [v.key] on a value that is neither null nor undefined; [None] is
    undefined.  Only objects carry the keys the program reads. *)
Definition get_property (v : json) (key : jsstring) : option json :=
  match v with
  | JObj fields => own_property key fields
  | _ => None
  end.

(** [v?.key] *)
Definition get_optional (v : option json) (key : jsstring) : option json :=
  match v with
  | None | Some JNull => None
  | Some v' => get_property v' key
  end.

(** ToBoolean. *)
Definition truthy (v : option json) : bool :=
  match v with
  | None | Some JNull => false
  | Some (JBool b) => b
  | Some (JNum x) => negb (PrimFloat.eqb x 0%float) && PrimFloat.eqb x x
  | Some (JStr s) => nonempty s
  | Some (JArr _) | Some (JObj _) => true
  end.

Inductive exn : Type :=
| Error (message : jsstring)       (* [new Error(message)] *)
| TypeError                        (* null dereference, failed fetch *)
| SyntaxError                      (* [res.json()] on a malformed body *)
| URIError                         (* [encodeURIComponent] on a lone surrogate *)
| HostException (name : jsstring)  (* thrown by a platform object *)
| ThrownString (s : jsstring).     (* a string used as rejection value *)

Inductive Completion (A : Type) : Type :=
| Normal (a : A)
| Throw (e : exn).
Arguments Normal {A} a.
Arguments Throw {A} e.

(** State-passing computations that complete normally or abruptly. *)
Definition M (S A : Type) : Type := S -> Completion A * S.

Definition ret {S A} (a : A) : M S A := fun s => (Normal a, s).
Definition throw {S A} (e : exn) : M S A := fun s => (Throw e, s).
Definition bind {S A B} (m : M S A) (k : A -> M S B) : M S B :=
  fun s =>
    match m s with
    | (Normal a, s') => k a s'
    | (Throw e, s') => (Throw e, s')
    end.
(** [try { m } catch (e) { h e }] *)
Definition try_catch {S A} (m : M S A) (h : exn -> M S A) : M S A :=
  fun s =>
    match m s with
    | (Normal a, s') => (Normal a, s')
    | (Throw e, s') => h e s'
    end.
Definition gets {S A} (f : S -> A) : M S A := fun s => (Normal (f s), s).
Definition modify {S} (f : S -> S) : M S unit := fun s => (Normal tt, f s).
(** [if (c) { m }] *)
Definition when {S} (c : bool) (m : M S unit) : M S unit :=
  if c then m else ret tt.

Declare Scope js_scope.
Delimit Scope js_scope with js.
Notation "x <- c1 ;; c2" := (bind c1 (fun x => c2))
  (at level 61, c1 at next level, right associativity) : js_scope.
Notation "c1 ;; c2" := (bind c1 (fun _ => c2))
  (at level 61, right associativity) : js_scope.
Open Scope js_scope.

(* ================================================================== *)
(** ** Translation backends *)

Record TranslationRequest : Type := mkRequest {
  q : jsstring;
  source : jsstring;
  target : jsstring
}.

(** The two HTTP calls of the program, by endpoint: the POST to
    libretranslate.com whose JSON body carries [q], [source], [target] and
    the text format, and the GET to api.mymemory.translated.net whose URL
    carries them percent-encoded. *)
Inductive HttpRequest : Type :=
| LibrePost (r : TranslationRequest)
| MyMemoryGet (r : TranslationRequest).

(** An HTTP response: its status, and its body parsed as JSON ([None] when
    the body is not JSON, so that [res.json()] rejects). *)
Record Response : Type := mkResponse {
  status : N;
  body : option json
}.

(** [res.ok] *)
Definition ok (res : Response) : bool :=
  ((200 <=? status res) && (status res <=? 299))%N.

Inductive FetchOutcome : Type :=
| NetworkFailure
| Responds (res : Response).

(** The network, as seen by one call of [translate]. *)
Definition Network : Type := HttpRequest -> FetchOutcome.

(** What a call of [translate] does that is visible outside. *)
Inductive IoEvent : Type :=
| Fetch (r : HttpRequest)
| ConsoleWarn (e : exn).

Definition Io (A : Type) : Type := M (list IoEvent) A.

Section Cascade.

Variable net : Network.

Definition emit (ev : IoEvent) : Io unit := modify (fun l => l ++ [ev]).

(** [await fetch(...)] *)
Definition fetch (r : HttpRequest) : Io Response :=
  emit (Fetch r) ;;
  match net r with
  | NetworkFailure => throw TypeError
  | Responds res => ret res
  end.

(** [await res.json()] *)
Definition res_json (res : Response) : Io json :=
  match body res with
  | None => throw SyntaxError
  | Some data => ret data
  end.

Definition translateViaLibre (r : TranslationRequest) : Io json :=
  res <- fetch (LibrePost r) ;;
  if negb (ok res)
  then throw (Error (lit "LibreTranslate error " ++ of_N (status res)))
  else
    data <- res_json res ;;
    if negb (truthy (Some data))
       || negb (truthy (get_property data (lit "translatedText")))
    then throw (Error (lit "Bad LT response"))
    else
      match get_property data (lit "translatedText") with
      | Some text => ret text
      | None => throw (Error (lit "Bad LT response"))
      end.

(** The URL is built with [encodeURIComponent] on [q], [source] and
    [target], which throws before anything is fetched when one of them
    is not well-formed UTF-16. *)
Definition encodeURIComponents (r : TranslationRequest) : Io unit :=
  if isWellFormed (q r) && isWellFormed (source r) && isWellFormed (target r)
  then ret tt
  else throw URIError.

Definition translateViaMyMemory (r : TranslationRequest) : Io json :=
  encodeURIComponents r ;;
  res <- fetch (MyMemoryGet r) ;;
  if negb (ok res)
  then throw (Error (lit "MyMemory error " ++ of_N (status res)))
  else
    data <- res_json res ;;
    let best :=
      get_optional (get_optional (Some data) (lit "responseData"))
                   (lit "translatedText") in
    if negb (truthy best)
    then throw (Error (lit "Bad MM response"))
    else
      match best with
      | Some text => ret text
      | None => throw (Error (lit "Bad MM response"))
      end.

Definition translate (r : TranslationRequest) : Io json :=
  try_catch (translateViaLibre r)
            (fun e => emit (ConsoleWarn e) ;; translateViaMyMemory r).

End Cascade.

(* ================================================================== *)
(** ** Text-to-speech: voice selection *)

Record Voice : Type := mkVoice {
  voice_name : jsstring;
  voice_lang : option jsstring       (* [v.lang]; [None] when absent *)
}.

(** [(v.lang || "")] *)
Definition lang_or_empty (v : Voice) : jsstring :=
  match voice_lang v with
  | Some l => if nonempty l then l else []
  | None => []
  end.

(** [a || b] on values that are an object or undefined/null. *)
Definition or_else {A} (a b : option A) : option A :=
  match a with
  | Some x => Some x
  | None => b
  end.
Notation "a 'orElse' b" := (or_else a b) (at level 71, right associativity).

Section Voices.

(** [String.prototype.toLowerCase], a platform function. *)
Variable toLowerCase : jsstring -> jsstring.

Definition lower_lang (v : Voice) : jsstring := toLowerCase (lang_or_empty v).

Definition byLang (voices : list Voice) (l : jsstring) : option Voice :=
  find (fun v => JsString.eqb (lower_lang v) l) voices.

Definition pickKannadaVoice (voices : list Voice) : option Voice :=
  byLang voices (lit "kn-in") orElse
  find (fun v => startsWith (lower_lang v) (lit "kn")) voices orElse
  find (fun v => includes (lower_lang v) (lit "en-in")) voices orElse
  nth_error voices 0 orElse
  None.

End Voices.

Record Utterance : Type := mkUtterance {
  utt_text : jsstring;
  utt_voice : option Voice;
  utt_lang : jsstring
}.

(* ================================================================== *)
(** ** The session: world, handlers and events *)

(** One entry of a recognizer event's result list: the transcript of its
    first alternative, [results[i][0].transcript], and [isFinal]. *)
Record SpeechRecognitionResult : Type := mkResult {
  transcript : jsstring;
  isFinal : bool
}.

Record SpeechRecognitionEvent : Type := mkEvent {
  resultIndex : nat;
  results : list SpeechRecognitionResult
}.

Inductive RecognizerCall : Type := CallStart | CallStop.

Inductive SynthesisCall : Type :=
| CallCancel
| CallSpeak (u : Utterance).

(** What a suspended handler waits for. *)
Inductive Awaiting : Type :=
| TranslateToEnCall (r : TranslationRequest)   (* [await translate] of Kannada to English *)
| TranslateToKnCall (r : TranslationRequest)   (* [await translate] of English to Kannada *)
| ReplySpeech (u : Utterance)                  (* [await speakKannada(kn)] *)
| RepeatSpeech (u : Utterance).                (* [speakKannada(...).catch(...)] *)

(** The promise [speakKannada] returns, as it stands when the call
    returns. *)
Inductive SpeakPromise : Type :=
| Rejected (e : exn)
| Speaking (u : Utterance).

(** [ToString] of a parsed value, as assigning it to a text area applies
    it.  Arrays join their elements with commas, null elements as the
    empty string. *)
Section ToString.

(** [Number.prototype.toString], a platform function. *)
Variable NumberToString : float -> jsstring.

Fixpoint ToString (v : json) : jsstring :=
  match v with
  | JNull => lit "null"
  | JBool true => lit "true"
  | JBool false => lit "false"
  | JNum x => NumberToString x
  | JStr s => s
  | JArr items =>
      let element (x : json) : jsstring :=
        match x with JNull => [] | _ => ToString x end in
      (fix join (l : list json) : jsstring :=
         match l with
         | [] => []
         | [x] => element x
         | x :: rest => element x ++ lit "," ++ join rest
         end) items
  | JObj _ => lit "[object Object]"
  end.

End ToString.

Section Controller.

(** The platform: the recognizer object, whose [start()] and [stop()]
    return or throw and change its state as the platform decides, and the
    platform's string functions. *)
Variable R : Type.
Variable rec_start rec_stop : R -> R * option exn.
Variable toLowerCase : jsstring -> jsstring.
Variable NumberToString : float -> jsstring.

Record World : Type := mkWorld {
  (* globals *)
  listening : bool;
  manualStop : bool;
  reachedMax : bool;
  recognition : option R;
  (* text areas and status lines *)
  knHeard : jsstring;
  enMeaning : jsstring;
  myReplyEn : jsstring;
  knReply : jsstring;
  statusLine : jsstring;
  errorLine : jsstring;
  (* buttons *)
  btnStart_disabled : bool;
  btnStop_disabled : bool;
  btnSpeakAgain_disabled : bool;
  btnCopy_disabled : bool;
  (* platform capabilities and voice catalogue *)
  hasSTT : bool;
  hasTTS : bool;
  voices : list Voice;
  (* calls made on the recognizer and the synthesizer, oldest first *)
  rec_calls : list RecognizerCall;
  tts_calls : list SynthesisCall;
  (* suspended handlers, by ticket *)
  pending : list (nat * Awaiting);
  next_ticket : nat
}.

Definition set_listening (v : bool) (w : World) : World :=
  mkWorld v (manualStop w) (reachedMax w) (recognition w) (knHeard w)
    (enMeaning w) (myReplyEn w) (knReply w) (statusLine w) (errorLine w)
    (btnStart_disabled w) (btnStop_disabled w) (btnSpeakAgain_disabled w)
    (btnCopy_disabled w) (hasSTT w) (hasTTS w) (voices w) (rec_calls w)
    (tts_calls w) (pending w) (next_ticket w).
Definition set_manualStop (v : bool) (w : World) : World :=
  mkWorld (listening w) v (reachedMax w) (recognition w) (knHeard w)
    (enMeaning w) (myReplyEn w) (knReply w) (statusLine w) (errorLine w)
    (btnStart_disabled w) (btnStop_disabled w) (btnSpeakAgain_disabled w)
    (btnCopy_disabled w) (hasSTT w) (hasTTS w) (voices w) (rec_calls w)
    (tts_calls w) (pending w) (next_ticket w).
Definition set_reachedMax (v : bool) (w : World) : World :=
  mkWorld (listening w) (manualStop w) v (recognition w) (knHeard w)
    (enMeaning w) (myReplyEn w) (knReply w) (statusLine w) (errorLine w)
    (btnStart_disabled w) (btnStop_disabled w) (btnSpeakAgain_disabled w)
    (btnCopy_disabled w) (hasSTT w) (hasTTS w) (voices w) (rec_calls w)
    (tts_calls w) (pending w) (next_ticket w).
Definition set_recognition (v : option R) (w : World) : World :=
  mkWorld (listening w) (manualStop w) (reachedMax w) v (knHeard w)
    (enMeaning w) (myReplyEn w) (knReply w) (statusLine w) (errorLine w)
    (btnStart_disabled w) (btnStop_disabled w) (btnSpeakAgain_disabled w)
    (btnCopy_disabled w) (hasSTT w) (hasTTS w) (voices w) (rec_calls w)
    (tts_calls w) (pending w) (next_ticket w).
Definition set_knHeard (v : jsstring) (w : World) : World :=
  mkWorld (listening w) (manualStop w) (reachedMax w) (recognition w) v
    (enMeaning w) (myReplyEn w) (knReply w) (statusLine w) (errorLine w)
    (btnStart_disabled w) (btnStop_disabled w) (btnSpeakAgain_disabled w)
    (btnCopy_disabled w) (hasSTT w) (hasTTS w) (voices w) (rec_calls w)
    (tts_calls w) (pending w) (next_ticket w).
Definition set_enMeaning (v : jsstring) (w : World) : World :=
  mkWorld (listening w) (manualStop w) (reachedMax w) (recognition w)
    (knHeard w) v (myReplyEn w) (knReply w) (statusLine w) (errorLine w)
    (btnStart_disabled w) (btnStop_disabled w) (btnSpeakAgain_disabled w)
    (btnCopy_disabled w) (hasSTT w) (hasTTS w) (voices w) (rec_calls w)
    (tts_calls w) (pending w) (next_ticket w).
Definition set_myReplyEn (v : jsstring) (w : World) : World :=
  mkWorld (listening w) (manualStop w) (reachedMax w) (recognition w)
    (knHeard w) (enMeaning w) v (knReply w) (statusLine w) (errorLine w)
    (btnStart_disabled w) (btnStop_disabled w) (btnSpeakAgain_disabled w)
    (btnCopy_disabled w) (hasSTT w) (hasTTS w) (voices w) (rec_calls w)
    (tts_calls w) (pending w) (next_ticket w).
Definition set_knReply (v : jsstring) (w : World) : World :=
  mkWorld (listening w) (manualStop w) (reachedMax w) (recognition w)
    (knHeard w) (enMeaning w) (myReplyEn w) v (statusLine w) (errorLine w)
    (btnStart_disabled w) (btnStop_disabled w) (btnSpeakAgain_disabled w)
    (btnCopy_disabled w) (hasSTT w) (hasTTS w) (voices w) (rec_calls w)
    (tts_calls w) (pending w) (next_ticket w).
Definition set_statusLine (v : jsstring) (w : World) : World :=
  mkWorld (listening w) (manualStop w) (reachedMax w) (recognition w)
    (knHeard w) (enMeaning w) (myReplyEn w) (knReply w) v (errorLine w)
    (btnStart_disabled w) (btnStop_disabled w) (btnSpeakAgain_disabled w)
    (btnCopy_disabled w) (hasSTT w) (hasTTS w) (voices w) (rec_calls w)
    (tts_calls w) (pending w) (next_ticket w).
Definition set_errorLine (v : jsstring) (w : World) : World :=
  mkWorld (listening w) (manualStop w) (reachedMax w) (recognition w)
    (knHeard w) (enMeaning w) (myReplyEn w) (knReply w) (statusLine w) v
    (btnStart_disabled w) (btnStop_disabled w) (btnSpeakAgain_disabled w)
    (btnCopy_disabled w) (hasSTT w) (hasTTS w) (voices w) (rec_calls w)
    (tts_calls w) (pending w) (next_ticket w).
Definition set_btnStart_disabled (v : bool) (w : World) : World :=
  mkWorld (listening w) (manualStop w) (reachedMax w) (recognition w)
    (knHeard w) (enMeaning w) (myReplyEn w) (knReply w) (statusLine w)
    (errorLine w) v (btnStop_disabled w) (btnSpeakAgain_disabled w)
    (btnCopy_disabled w) (hasSTT w) (hasTTS w) (voices w) (rec_calls w)
    (tts_calls w) (pending w) (next_ticket w).
Definition set_btnStop_disabled (v : bool) (w : World) : World :=
  mkWorld (listening w) (manualStop w) (reachedMax w) (recognition w)
    (knHeard w) (enMeaning w) (myReplyEn w) (knReply w) (statusLine w)
    (errorLine w) (btnStart_disabled w) v (btnSpeakAgain_disabled w)
    (btnCopy_disabled w) (hasSTT w) (hasTTS w) (voices w) (rec_calls w)
    (tts_calls w) (pending w) (next_ticket w).
Definition set_btnSpeakAgain_disabled (v : bool) (w : World) : World :=
  mkWorld (listening w) (manualStop w) (reachedMax w) (recognition w)
    (knHeard w) (enMeaning w) (myReplyEn w) (knReply w) (statusLine w)
    (errorLine w) (btnStart_disabled w) (btnStop_disabled w) v
    (btnCopy_disabled w) (hasSTT w) (hasTTS w) (voices w) (rec_calls w)
    (tts_calls w) (pending w) (next_ticket w).
Definition set_btnCopy_disabled (v : bool) (w : World) : World :=
  mkWorld (listening w) (manualStop w) (reachedMax w) (recognition w)
    (knHeard w) (enMeaning w) (myReplyEn w) (knReply w) (statusLine w)
    (errorLine w) (btnStart_disabled w) (btnStop_disabled w)
    (btnSpeakAgain_disabled w) v (hasSTT w) (hasTTS w) (voices w)
    (rec_calls w) (tts_calls w) (pending w) (next_ticket w).
Definition set_rec_calls (v : list RecognizerCall) (w : World) : World :=
  mkWorld (listening w) (manualStop w) (reachedMax w) (recognition w)
    (knHeard w) (enMeaning w) (myReplyEn w) (knReply w) (statusLine w)
    (errorLine w) (btnStart_disabled w) (btnStop_disabled w)
    (btnSpeakAgain_disabled w) (btnCopy_disabled w) (hasSTT w) (hasTTS w)
    (voices w) v (tts_calls w) (pending w) (next_ticket w).
Definition set_tts_calls (v : list SynthesisCall) (w : World) : World :=
  mkWorld (listening w) (manualStop w) (reachedMax w) (recognition w)
    (knHeard w) (enMeaning w) (myReplyEn w) (knReply w) (statusLine w)
    (errorLine w) (btnStart_disabled w) (btnStop_disabled w)
    (btnSpeakAgain_disabled w) (btnCopy_disabled w) (hasSTT w) (hasTTS w)
    (voices w) (rec_calls w) v (pending w) (next_ticket w).
Definition set_pending (v : list (nat * Awaiting)) (w : World) : World :=
  mkWorld (listening w) (manualStop w) (reachedMax w) (recognition w)
    (knHeard w) (enMeaning w) (myReplyEn w) (knReply w) (statusLine w)
    (errorLine w) (btnStart_disabled w) (btnStop_disabled w)
    (btnSpeakAgain_disabled w) (btnCopy_disabled w) (hasSTT w) (hasTTS w)
    (voices w) (rec_calls w) (tts_calls w) v (next_ticket w).
Definition set_next_ticket (v : nat) (w : World) : World :=
  mkWorld (listening w) (manualStop w) (reachedMax w) (recognition w)
    (knHeard w) (enMeaning w) (myReplyEn w) (knReply w) (statusLine w)
    (errorLine w) (btnStart_disabled w) (btnStop_disabled w)
    (btnSpeakAgain_disabled w) (btnCopy_disabled w) (hasSTT w) (hasTTS w)
    (voices w) (rec_calls w) (tts_calls w) (pending w) v.

Definition Handler (A : Type) : Type := M World A.

(** [statusLine.textContent = msg || ""] *)
Definition setStatus (msg : jsstring) : Handler unit :=
  modify (set_statusLine (if nonempty msg then msg else [])).

Definition setError (msg : jsstring) : Handler unit :=
  modify (set_errorLine (if nonempty msg then msg else [])).

Definition setListening (on : bool) : Handler unit :=
  modify (set_listening on) ;;
  modify (set_btnStart_disabled on) ;;
  modify (set_btnStop_disabled (negb on)) ;;
  setStatus (if on then lit "Listening for Kannada" ++ [ELLIPSIS] else []).

(** A method call on [recognition]: a TypeError when it is null, else the
    platform's call, recorded. *)
Definition call_recognition (c : RecognizerCall)
           (method : R -> R * option exn) : Handler unit :=
  fun w =>
    match recognition w with
    | None => (Throw TypeError, w)
    | Some r =>
        let (r', thrown) := method r in
        let w' := set_rec_calls (rec_calls w ++ [c])
                    (set_recognition (Some r') w) in
        match thrown with
        | None => (Normal tt, w')
        | Some e => (Throw e, w')
        end
    end.

Definition recognition_start : Handler unit :=
  call_recognition CallStart rec_start.
Definition recognition_stop : Handler unit :=
  call_recognition CallStop rec_stop.

(** [try { m } catch {}] *)
Definition try_ (m : Handler unit) : Handler unit :=
  try_catch m (fun _ => ret tt).

(** The loop of [onresult]: one step per result from [resultIndex] on,
    on the pair [(interim, final)]. *)
Definition collect (acc : jsstring * jsstring) (r : SpeechRecognitionResult)
  : jsstring * jsstring :=
  let (interim, final) := acc in
  let t := transcript r in
  if isFinal r then (interim, final ++ t)
  else (interim ++ t ++ lit " ", final).

Definition new_results (e : SpeechRecognitionEvent)
  : list SpeechRecognitionResult :=
  skipn (resultIndex e) (results e).

(** The text [onresult] stores in [knHeard]. *)
Definition combined_text (heard : jsstring) (e : SpeechRecognitionEvent)
  : jsstring :=
  let (interim, final) := fold_left collect (new_results e) ([], []) in
  let existing := if nonempty heard then heard ++ lit " " else [] in
  trim (existing ++ (if nonempty final then final else interim)).

Definition onresult (e : SpeechRecognitionEvent) : Handler unit :=
  heard <- gets knHeard ;;
  let combined := combined_text heard e in
  modify (set_knHeard combined) ;;
  when (MAX_SENTENCES <=? sentenceCount combined) (
    modify (set_reachedMax true) ;;
    try_ recognition_stop ;;
    setListening false ;;
    setStatus (lit "Captured " ++ of_N (N.of_nat MAX_SENTENCES)
               ++ lit " sentences. You can translate now.")).

Definition onerror (error : jsstring) : Handler unit :=
  setError (lit "Speech recognition error: " ++ error) ;;
  setListening false.

Definition onend : Handler unit :=
  l <- gets listening ;;
  m <- gets manualStop ;;
  x <- gets reachedMax ;;
  when (l && negb m && negb x) (try_ recognition_start).

Definition btnStart_click : Handler unit :=
  setError [] ;;
  stt <- gets hasSTT ;;
  if negb stt
  then setError (lit "Speech recognition not supported. Use Chrome.")
  else
    modify (set_manualStop false) ;;
    modify (set_reachedMax false) ;;
    modify (set_knHeard []) ;;
    modify (set_enMeaning []) ;;
    modify (set_myReplyEn []) ;;
    modify (set_knReply []) ;;
    modify (set_btnSpeakAgain_disabled true) ;;
    modify (set_btnCopy_disabled true) ;;
    try_catch (recognition_start ;; setListening true)
              (fun _ => setError
                 (lit "Could not start mic. Allow mic permission and retry.")).

Definition btnStop_click : Handler unit :=
  modify (set_manualStop true) ;;
  try_ recognition_stop ;;
  setListening false ;;
  setStatus (lit "Processing" ++ [ELLIPSIS]).

Definition btnReset_click : Handler unit :=
  modify (set_manualStop true) ;;
  try_ recognition_stop ;;
  modify (set_knHeard []) ;;
  modify (set_enMeaning []) ;;
  modify (set_myReplyEn []) ;;
  modify (set_knReply []) ;;
  setStatus [] ;;
  setError [] ;;
  modify (set_btnSpeakAgain_disabled true) ;;
  modify (set_btnCopy_disabled true).

(** Suspend the running handler on [a], under a fresh ticket. *)
Definition await (a : Awaiting) : Handler unit :=
  modify (fun w =>
    set_next_ticket (S (next_ticket w))
      (set_pending (pending w ++ [(next_ticket w, a)]) w)).

(** The executor of the promise of [speakKannada], which runs during the
    call. *)
Definition speakKannada (text : jsstring) : Handler SpeakPromise :=
  tts <- gets hasTTS ;;
  if negb tts then ret (Rejected (Error (lit "TTS not supported")))
  else
    vs <- gets voices ;;
    let voice := pickKannadaVoice toLowerCase vs in
    let lang :=
      match voice with
      | Some v =>
          match voice_lang v with
          | Some l => if nonempty l then l else lit "kn-IN"
          | None => lit "kn-IN"
          end
      | None => lit "kn-IN"
      end in
    let u := mkUtterance text voice lang in
    modify (fun w => set_tts_calls (tts_calls w ++ [CallCancel]) w) ;;
    modify (fun w => set_tts_calls (tts_calls w ++ [CallSpeak u]) w) ;;
    ret (Speaking u).

(** [btnTranslateToEn]: up to its [await]. *)
Definition btnTranslateToEn_click : Handler unit :=
  setError [] ;;
  heard <- gets knHeard ;;
  let q := trim heard in
  if negb (nonempty q)
  then setError (lit "No Kannada captured. Try again.")
  else
    setStatus (lit "Translating Kannada " ++ [RIGHT_ARROW] ++ lit " English"
               ++ [ELLIPSIS]) ;;
    await (TranslateToEnCall (mkRequest q (lit "kn") (lit "en"))).

(** [btnTranslateToEn]: from the settled [translate] on. *)
Definition btnTranslateToEn_resume (r : Completion json) : Handler unit :=
  match r with
  | Normal en =>
      modify (set_enMeaning (ToString NumberToString en)) ;;
      setStatus (lit "Ready for your English reply.")
  | Throw _ => setError (lit "Translation failed. Please retry.")
  end.

(** [btnTranslateToKn]: up to its first [await]. *)
Definition btnTranslateToKn_click : Handler unit :=
  setError [] ;;
  reply <- gets myReplyEn ;;
  let q := trim reply in
  if negb (nonempty q)
  then setError (lit "Type your reply in English first.")
  else
    setStatus (lit "Translating English " ++ [RIGHT_ARROW] ++ lit " Kannada"
               ++ [ELLIPSIS]) ;;
    await (TranslateToKnCall (mkRequest q (lit "en") (lit "kn"))).

(** [btnTranslateToKn]: from the settled speech on. *)
Definition btnTranslateToKn_spoken (outcome : option exn) : Handler unit :=
  match outcome with
  | None => ret tt
  | Some _ =>
      setError (lit "Speech failed. You can still copy the Kannada text.")
  end ;;
  setStatus (lit "Done.").

(** [btnTranslateToKn]: from the settled [translate] to the second
    [await].  A promise that [speakKannada] rejected during the call is
    handled at once. *)
Definition btnTranslateToKn_resume (r : Completion json) : Handler unit :=
  match r with
  | Normal kn =>
      modify (set_knReply (ToString NumberToString kn)) ;;
      modify (set_btnSpeakAgain_disabled false) ;;
      modify (set_btnCopy_disabled false) ;;
      setStatus (lit "Speaking Kannada response" ++ [ELLIPSIS]) ;;
      p <- speakKannada (ToString NumberToString kn) ;;
      match p with
      | Rejected e => btnTranslateToKn_spoken (Some e)
      | Speaking u => await (ReplySpeech u)
      end
  | Throw _ => setError (lit "Translation failed. Please retry.")
  end.

Definition btnSpeakAgain_failed : Handler unit :=
  setError (lit "Speech failed.").

Definition btnSpeakAgain_click : Handler unit :=
  reply <- gets knReply ;;
  if negb (nonempty reply) then ret tt
  else
    p <- speakKannada reply ;;
    match p with
    | Rejected _ => btnSpeakAgain_failed
    | Speaking u => await (RepeatSpeech u)
    end.

(** *** The event loop *)

Inductive Event : Type :=
| ClickStart
| ClickStop
| ClickReset
| ClickTranslateToEn
| ClickTranslateToKn
| ClickSpeakAgain
| InputMyReplyEn (text : jsstring)          (* the user edits the reply box *)
| RecognizerResult (e : SpeechRecognitionEvent)
| RecognizerError (error : jsstring)
| RecognizerEnd
| TranslateSettles (ticket : nat) (net : Network)
    (* the [translate] call suspended under [ticket] settles, the
       network having answered its requests as [net] does *)
| SpeechSettles (ticket : nat) (outcome : option exn).
    (* the utterance suspended under [ticket] ends, or fails with an error *)

Fixpoint take_ticket (t : nat) (l : list (nat * Awaiting))
  : option (Awaiting * list (nat * Awaiting)) :=
  match l with
  | [] => None
  | (t', a) :: rest =>
      if t' =? t then Some (a, rest)
      else
        match take_ticket t rest with
        | Some (a', rest') => Some (a', (t', a) :: rest')
        | None => None
        end
  end.

(** A handler run to completion; an exception that escapes it is
    reported by the platform and changes nothing more. *)
Definition run (h : Handler unit) (w : World) : World := snd (h w).

(** The recognizer's handlers are installed only on a recognizer. *)
Definition if_recognition (h : Handler unit) (w : World) : World :=
  match recognition w with
  | Some _ => run h w
  | None => w
  end.

Definition step (w : World) (ev : Event) : World :=
  match ev with
  | ClickStart => run btnStart_click w
  | ClickStop => run btnStop_click w
  | ClickReset => run btnReset_click w
  | ClickTranslateToEn => run btnTranslateToEn_click w
  | ClickTranslateToKn => run btnTranslateToKn_click w
  | ClickSpeakAgain => run btnSpeakAgain_click w
  | InputMyReplyEn text => set_myReplyEn text w
  | RecognizerResult e => if_recognition (onresult e) w
  | RecognizerError error => if_recognition (onerror error) w
  | RecognizerEnd => if_recognition onend w
  | TranslateSettles t net =>
      match take_ticket t (pending w) with
      | Some (TranslateToEnCall r, rest) =>
          run (btnTranslateToEn_resume (fst (translate net r [])))
              (set_pending rest w)
      | Some (TranslateToKnCall r, rest) =>
          run (btnTranslateToKn_resume (fst (translate net r [])))
              (set_pending rest w)
      | _ => w
      end
  | SpeechSettles t outcome =>
      match take_ticket t (pending w) with
      | Some (ReplySpeech _, rest) =>
          run (btnTranslateToKn_spoken outcome) (set_pending rest w)
      | Some (RepeatSpeech _, rest) =>
          run (match outcome with
               | None => ret tt
               | Some _ => btnSpeakAgain_failed
               end) (set_pending rest w)
      | _ => w
      end
  end.

Definition steps (w : World) (evs : list Event) : World :=
  fold_left step evs w.

End Controller.


(* ================================================================== *)
(** ** Reading the accumulation step *)

(** The final fragments of a batch, concatenated in recognizer order, and
    its interim fragments, each followed by one space. *)
Definition final_text (rs : list SpeechRecognitionResult) : jsstring :=
  concat (map transcript (filter isFinal rs)).

Definition interim_text (rs : list SpeechRecognitionResult) : jsstring :=
  concat (map (fun r => transcript r ++ lit " ")
              (filter (fun r => negb (isFinal r)) rs)).

(** What a batch adds to the buffer: [final || interim]. *)
Definition appended_text (e : SpeechRecognitionEvent) : jsstring :=
  if nonempty (final_text (new_results e))
  then final_text (new_results e)
  else interim_text (new_results e).

(** The buffer with a separating space, when it holds text. *)
Definition existing_text (heard : jsstring) : jsstring :=
  if nonempty heard then heard ++ lit " " else [].

Definition is_prefix (s t : jsstring) : Prop := exists z, t = s ++ z.

(** The committed buffer as the specification words it (section 4.1):
    only the final fragments of a batch are appended to it, each separated
    by a single space.  The program keeps no such buffer, only the one
    text area; this definition is what the handler is compared with. *)
Definition spec_committed (committed : jsstring)
           (e : SpeechRecognitionEvent) : jsstring :=
  fold_left (fun acc t => if nonempty acc then acc ++ lit " " ++ t else t)
            (map transcript (filter isFinal (new_results e))) committed.

(** [v] is the first element of [l], in list order, that satisfies [P]. *)
Definition first_such {A} (P : A -> Prop) (l : list A) (v : A) : Prop :=
  exists before after,
    l = before ++ v :: after /\ P v /\ Forall (fun x => ~ P x) before.

(** *** Auxiliary notions *)

(** The recognizer calls made once [stop()] has been requested. *)
Definition stop_requested {R} (w : World R) : list RecognizerCall :=
  match recognition w with
  | Some _ => rec_calls w ++ [CallStop]
  | None => rec_calls w
  end.

(** The world after a call of a recognizer method that was made, whether
    it returned or threw. *)
Definition recognizer_called {R} (c : RecognizerCall) (r' : R) (w : World R)
  : World R :=
  set_rec_calls (rec_calls w ++ [c]) (set_recognition (Some r') w).

(** When the primary provider's call succeeds: a response with a success
    status and a JSON body that is truthy and has a truthy
    [translatedText]. *)
Definition primary_accepts (net : Network) (r : TranslationRequest)
           (text : json) : Prop :=
  exists res data,
    net (LibrePost r) = Responds res /\ ok res = true /\
    body res = Some data /\ truthy (Some data) = true /\
    get_property data (lit "translatedText") = Some text /\
    truthy (Some text) = true.

(** The ways the primary provider's call fails: no response, a status
    that is not a success, a body that is not JSON, or a payload that is
    falsy or whose [translatedText] is missing or falsy. *)
Definition primary_refuses (net : Network) (r : TranslationRequest) : Prop :=
  net (LibrePost r) = NetworkFailure \/
  exists res,
    net (LibrePost r) = Responds res /\
    (ok res = false \/ body res = None \/
     exists data,
       body res = Some data /\
       (truthy (Some data) = false \/
        truthy (get_property data (lit "translatedText")) = false)).

(** The three tests of [pickKannadaVoice], on a voice's language tag. *)
Definition equals_ignoring_case (toLowerCase : jsstring -> jsstring)
           (a b : jsstring) : Prop :=
  toLowerCase a = toLowerCase b.
Definition exact_voice (toLowerCase : jsstring -> jsstring) (v : Voice) : Prop :=
  equals_ignoring_case toLowerCase (lang_or_empty v) (lit "kn-IN").
Definition prefix_voice (toLowerCase : jsstring -> jsstring) (v : Voice) : Prop :=
  startsWith (toLowerCase (lang_or_empty v)) (lit "kn") = true.
Definition fallback_voice (toLowerCase : jsstring -> jsstring) (v : Voice) : Prop :=
  includes (toLowerCase (lang_or_empty v)) (lit "en-in") = true.

Definition some_voice (P : Voice -> Prop) (voices : list Voice) : Prop :=
  exists v, In v voices /\ P v.

(** The suspended handler waiting under a ticket. *)
Fixpoint awaited_in (t : nat) (l : list (nat * Awaiting)) : option Awaiting :=
  match l with
  | [] => None
  | (t', a) :: rest => if t' =? t then Some a else awaited_in t rest
  end.

Definition awaited {R} (t : nat) (w : World R) : option Awaiting :=
  awaited_in t (pending w).


(** Every ticket in use is older than the next one. *)
Definition tickets_fresh {R} (w : World R) : Prop :=
  Forall (fun p => fst p < next_ticket w) (pending w).

(** A handler suspends at most once, under the next ticket. *)
Definition awaits_at_most_once {R} (h : Handler R unit) : Prop :=
  forall w,
    (pending (run h w) = pending w /\ next_ticket (run h w) = next_ticket w) \/
    (exists a, pending (run h w) = pending w ++ [(next_ticket w, a)] /\
               next_ticket (run h w) = S (next_ticket w)).


(** *** A concrete platform

    The recognizer of the Web Speech API: [start()] throws an
    InvalidStateError on a recognizer that is already started, [stop()]
    never throws.  Lower-casing is the ASCII one, and the examples convert
    no number to a string. *)
Module Platform.

Definition R : Type := bool.   (* started? *)

Definition rec_start (started : R) : R * option exn :=
  if started then (true, Some (HostException (lit "InvalidStateError")))
  else (true, None).

Definition rec_stop (started : R) : R * option exn := (false, None).

(** A recognizer whose [start()] always throws, as when the microphone
    cannot be opened. *)
Definition rec_start_refused (started : R) : R * option exn :=
  (started, Some (HostException (lit "NotAllowedError"))).

Definition NumberToString (x : float) : jsstring := [].

(** The page as loaded in a browser with both speech capabilities and no
    voices yet. *)
Definition initial : World R :=
  mkWorld false false false (Some false)
          [] [] [] [] [] []
          false false false false
          true true []
          [] [] [] 0.

Definition step : World R -> Event -> World R :=
  step rec_start rec_stop asciiToLowerCase NumberToString.

Definition steps : World R -> list Event -> World R :=
  steps rec_start rec_stop asciiToLowerCase NumberToString.

End Platform.

(** *** Scenarios on the concrete platform *)

Module Scenario.

(** The first batch of a capture, of one result, and a second batch: the
    result list then holds the first result, already final, and one new
    result from [resultIndex] 1 on. *)
Definition first_batch (t : jsstring) (final : bool) : SpeechRecognitionEvent :=
  mkEvent 0 [mkResult t final].
Definition second_batch (t1 t2 : jsstring) (final : bool) : SpeechRecognitionEvent :=
  mkEvent 1 [mkResult t1 true; mkResult t2 final].

Definition five_sentences : jsstring := lit "a. b. c. d. e.".

(** The session after Start, and after a first final fragment. *)
Definition started : World Platform.R :=
  Platform.step Platform.initial ClickStart.
Definition heard_ab : World Platform.R :=
  Platform.step started (RecognizerResult (first_batch (lit "ab") true)).
(** The recognizer has ended by itself. *)
Definition ended : World Platform.R := set_recognition (Some false) started.
(** A stopped session that holds text from the capture. *)
Definition stopped_with_text : World Platform.R :=
  Platform.step heard_ab ClickStop.
(** The user has typed a reply. *)
Definition replied : World Platform.R :=
  Platform.step Platform.initial (InputMyReplyEn (lit "hi")).

Definition namaskara : jsstring :=
  [0x0CA8; 0x0CAE; 0x0CB8; 0x0CCD; 0x0C95; 0x0CBE; 0x0CB0]%N.

(** The primary provider answers with a translation. *)
Definition libre_answers : Network :=
  fun req =>
    match req with
    | LibrePost _ =>
        Responds (mkResponse 200
                    (Some (JObj [(lit "translatedText", JStr namaskara)])))
    | MyMemoryGet _ => NetworkFailure
    end.

(** The primary provider answers HTTP 500, the secondary translates. *)
Definition libre_down : Network :=
  fun req =>
    match req with
    | LibrePost _ => Responds (mkResponse 500 None)
    | MyMemoryGet _ =>
        Responds (mkResponse 200
                    (Some (JObj [(lit "responseData",
                                  JObj [(lit "translatedText", JStr namaskara)])])))
    end.

Definition hello : TranslationRequest := mkRequest (lit "hello") (lit "en") (lit "kn").

Definition catalogue : list Voice :=
  [ mkVoice (lit "Samantha") (Some (lit "en-US"));
    mkVoice (lit "Rishi") (Some (lit "en-IN"));
    mkVoice (lit "Kannada India") (Some (lit "KN-in"));
    mkVoice (lit "Kannada") (Some (lit "kn")) ].

End Scenario.
Import Scenario.

(* ================================================================== *)
(** ** Further notions: invariants of the session, the cascade's traffic
    and the service worker *)

(** The code units [sentenceCount] looks for. *)
Definition FULL_STOP : code_unit := 46%N.
Definition EXCLAMATION : code_unit := 33%N.
Definition QUESTION : code_unit := 63%N.

(** The Start button is disabled exactly while the session listens, the
    Stop button exactly while it does not. *)
Definition buttons_follow_listening {R} (w : World R) : Prop :=
  btnStart_disabled w = listening w /\
  btnStop_disabled w = negb (listening w).

(** A session at the sentence limit does not listen. *)
Definition limit_excludes_listening {R} (w : World R) : Prop :=
  reachedMax w = true -> listening w = false.

(** Every utterance handed to the synthesizer comes right after a
    [cancel()]. *)
Definition cancel_before_speak (calls : list SynthesisCall) : Prop :=
  exists us, calls = flat_map (fun u => [CallCancel; CallSpeak u]) us.

(** The events of the recognizer. *)
Definition recognizer_event (ev : Event) : bool :=
  match ev with
  | RecognizerResult _ | RecognizerError _ | RecognizerEnd => true
  | _ => false
  end.

(** The events of translation and speech: the three buttons and the
    settling of what they wait for. *)
Definition reply_event (ev : Event) : bool :=
  match ev with
  | ClickTranslateToEn | ClickTranslateToKn | ClickSpeakAgain
  | TranslateSettles _ _ | SpeechSettles _ _ | InputMyReplyEn _ => true
  | _ => false
  end.

(** The events after which the capture is over: Stop, Reset, a recognizer
    error, and a result that brings the buffer to the limit. *)
Definition ends_capture {R} (w : World R) (ev : Event) : Prop :=
  match ev with
  | ClickStop | ClickReset | RecognizerError _ => True
  | RecognizerResult e =>
      MAX_SENTENCES <= sentenceCount (combined_text (knHeard w) e)
  | _ => False
  end.

(** The utterance [speakKannada] builds for a text. *)
Definition utterance_for (toLowerCase : jsstring -> jsstring)
           (voices : list Voice) (text : jsstring) : Utterance :=
  let voice := pickKannadaVoice toLowerCase voices in
  mkUtterance text voice
    (match voice with
     | Some v =>
         match voice_lang v with
         | Some l => if nonempty l then l else lit "kn-IN"
         | None => lit "kn-IN"
         end
     | None => lit "kn-IN"
     end).

(** The requests a call of [translate] has fetched, in order. *)
Definition fetches (io : list IoEvent) : list HttpRequest :=
  flat_map (fun ev => match ev with Fetch r => [r] | ConsoleWarn _ => [] end) io.

(** When the secondary provider's call succeeds: the URL can be built, the
    response has a success status and a JSON body, and
    [data?.responseData?.translatedText] is truthy. *)
Definition secondary_accepts (net : Network) (r : TranslationRequest)
           (text : json) : Prop :=
  isWellFormed (q r) && isWellFormed (source r) && isWellFormed (target r) = true /\
  exists res data,
    net (MyMemoryGet r) = Responds res /\ ok res = true /\
    body res = Some data /\
    get_optional (get_optional (Some data) (lit "responseData"))
                 (lit "translatedText") = Some text /\
    truthy (Some text) = true.

(** *** The service worker

    Its fetch handler, from the unnamed source file.  The handler reads
    the request's URL, the network and the cache; the calls it makes are
    recorded. *)

Record Url : Type := mkUrl {
  url_host : jsstring;
  url_pathname : jsstring
}.

Inductive WorkerCall : Type :=
| WorkerFetch            (* [fetch(e.request)] *)
| MatchRequest           (* [caches.match(e.request)] *)
| MatchOffline.          (* [caches.match('offline.html')] *)

Definition Worker (A : Type) : Type := M (list WorkerCall) A.

(** [url.pathname.startsWith('/translate') ||
     url.host.includes('libretranslate') || url.host.includes('mymemory')] *)
Definition is_api_request (u : Url) : bool :=
  startsWith (url_pathname u) (lit "/translate")
  || includes (url_host u) (lit "libretranslate")
  || includes (url_host u) (lit "mymemory").

Section ServiceWorker.

(** What the network answers to the request, what the cache holds for
    the request, and what it holds for the offline page. *)
Variable network : FetchOutcome.
Variable cached : option Response.
Variable offline : option Response.

Definition called (c : WorkerCall) : Worker unit := modify (fun l => l ++ [c]).

(** [fetch(e.request)] *)
Definition worker_fetch : Worker (option Response) :=
  called WorkerFetch ;;
  match network with
  | NetworkFailure => throw TypeError
  | Responds res => ret (Some res)
  end.

(** [fetch(e.request).catch(() => caches.match('offline.html'))] *)
Definition fetch_or_offline : Worker (option Response) :=
  try_catch worker_fetch (fun _ => called MatchOffline ;; ret offline).

(** The response handed to [e.respondWith]; [None] is undefined, which
    the page sees as a failed fetch. *)
Definition onfetch (u : Url) : Worker (option Response) :=
  if is_api_request u
  then fetch_or_offline
  else
    called MatchRequest ;;
    match cached with
    | Some res => ret (Some res)
    | None => fetch_or_offline
    end.

End ServiceWorker.

(** The URLs the two translation backends fetch: their host and path. *)
Definition url_of (r : HttpRequest) : Url :=
  match r with
  | LibrePost _ => mkUrl (lit "libretranslate.com") (lit "/translate")
  | MyMemoryGet _ => mkUrl (lit "api.mymemory.translated.net") (lit "/get")
  end.

(** The network as the page sees it with the service worker in front. *)
Definition behind_worker (cache : HttpRequest -> option Response)
           (offline : option Response) (net : Network) : Network :=
  fun r =>
    match fst (onfetch (net r) (cache r) offline (url_of r) []) with
    | Normal (Some res) => Responds res
    | Normal None | Throw _ => NetworkFailure
    end.

(** *** Further scenarios on the concrete platform *)

Module Cases.

(** A browser without speech recognition, holding text from elsewhere. *)
Definition no_recognition : World Platform.R :=
  mkWorld false false false None
          (lit "old") [] [] (lit "reply") [] []
          false true false false
          false true []
          [] [] [] 0.

(** The user has typed only spaces into the reply box. *)
Definition blank_reply : World Platform.R :=
  Platform.step Platform.initial (InputMyReplyEn (lit "   ")).

(** The reply has been sent for translation; and its translation has
    arrived and is being spoken. *)
Definition reply_sent : World Platform.R :=
  Platform.step Scenario.replied ClickTranslateToKn.
Definition reply_spoken : World Platform.R :=
  Platform.step reply_sent (TranslateSettles 0 Scenario.libre_answers).

(** The event that repeats the first batch with nothing new. *)
Definition repeated_batch : SpeechRecognitionEvent :=
  mkEvent 1 [mkResult (lit "ab") true].

(** No network at all, and the offline page as the worker caches it. *)
Definition no_network : Network := fun _ => NetworkFailure.
Definition offline_page : Response := mkResponse 200 None.

End Cases.

(* ================================================================== *)
(** * Properties *)

Unset Implicit Arguments.

(** ** Strings *)

Lemma trimStart_length (s : jsstring) :
  List.length (trimStart s) <= List.length s.
Proof.
  induction s as [|c s IH]; simpl; [lia|].
  destruct (is_white_space c); simpl; lia.
Qed.

Lemma trimStart_fixed (s : jsstring) :
  List.length (trimStart s) = List.length s -> trimStart s = s.
Proof.
  destruct s as [|c s]; simpl; [reflexivity|].
  destruct (is_white_space c); [|reflexivity].
  pose proof (trimStart_length s). lia.
Qed.

Lemma trimStart_app (a b : jsstring) :
  trimStart (a ++ b) =
  if forallb is_white_space a then trimStart b else trimStart a ++ b.
Proof.
  induction a as [|c a IH]; simpl; [reflexivity|].
  destruct (is_white_space c); simpl; [exact IH | reflexivity].
Qed.

Lemma forallb_rev {A} (f : A -> bool) (l : list A) :
  forallb f (rev l) = forallb f l.
Proof.
  induction l as [|x l IH]; simpl; [reflexivity|].
  rewrite forallb_app, IH. simpl. rewrite andb_true_r. apply andb_comm.
Qed.

Lemma trimEnd_app (a b : jsstring) :
  trimEnd (a ++ b) =
  if forallb is_white_space b then trimEnd a else a ++ trimEnd b.
Proof.
  unfold trimEnd. rewrite rev_app_distr, trimStart_app, forallb_rev.
  destruct (forallb is_white_space b); [reflexivity|].
  now rewrite rev_app_distr, rev_involutive.
Qed.

Lemma trimEnd_length (s : jsstring) :
  List.length (trimEnd s) <= List.length s.
Proof.
  unfold trimEnd. rewrite length_rev.
  pose proof (trimStart_length (rev s)). now rewrite length_rev in H.
Qed.

(** A string that [trim] leaves alone is left alone by both halves. *)
Lemma trim_fixed (s : jsstring) :
  trim s = s -> trimStart s = s /\ trimEnd s = s.
Proof.
  intros H. unfold trim in H.
  assert (Hs : trimStart s = s).
  { apply trimStart_fixed.
    pose proof (trimStart_length s). pose proof (trimEnd_length (trimStart s)).
    rewrite H in H1. lia. }
  split; [exact Hs|]. now rewrite Hs in H.
Qed.

(** Text appended to a trimmed buffer leaves the buffer in place: [trim]
    only shortens what was appended. *)
Lemma trim_app_prefix (k y : jsstring) :
  trim k = k -> is_prefix k (trim (k ++ y)).
Proof.
  intros H. destruct (trim_fixed k H) as [Hs He].
  destruct k as [|c k].
  - exists (trim y). reflexivity.
  - assert (Hc : is_white_space c = false).
    { simpl in Hs. destruct (is_white_space c); [|reflexivity].
      pose proof (trimStart_length k). rewrite Hs in H0. simpl in H0. lia. }
    unfold trim. replace (trimStart ((c :: k) ++ y)) with ((c :: k) ++ y)
      by (simpl; now rewrite Hc).
    rewrite trimEnd_app. destruct (forallb is_white_space y).
    + exists []. now rewrite He, app_nil_r.
    + now exists (trimEnd y).
Qed.

(** ** Sentence counting *)

Lemma sentenceCount_matches (t : jsstring) :
  sentenceCount t = List.length (matches SENTENCE_END t).
Proof.
  unfold sentenceCount, str_match.
  destruct (matches SENTENCE_END t); reflexivity.
Qed.

Lemma matches_app (r : regex) (s t : jsstring) :
  matches r (s ++ t) = matches r s ++ matches r t.
Proof.
  induction s as [|c s IH]; simpl; [reflexivity|].
  destruct (accepts r c); simpl; now rewrite IH.
Qed.

Lemma sentenceCount_app (s t : jsstring) :
  sentenceCount (s ++ t) = sentenceCount s + sentenceCount t.
Proof.
  rewrite !sentenceCount_matches, matches_app. apply length_app.
Qed.

Lemma sentenceCount_nil : sentenceCount [] = 0.
Proof. reflexivity. Qed.

(** Each of the five terminators counts, and nothing else does. *)
Example sentenceCount_terminators :
  sentenceCount (lit "a. b? c! d" ++ [ELLIPSIS] ++ lit " e" ++ [DANDA]) = 5 /\
  sentenceCount (lit "a, b; c: d") = 0.
Proof. split; reflexivity. Qed.

(** No white space ends a sentence. *)
Lemma white_space_not_terminator (c : code_unit) :
  is_white_space c = true -> accepts SENTENCE_END c = false.
Proof.
  intros Hw. simpl.
  repeat match goal with
         | |- context [N.eqb c ?k] =>
             destruct (N.eqb_spec c k) as [->|_];
             [vm_compute in Hw; discriminate|]
         end.
  reflexivity.
Qed.

Lemma sentenceCount_trimStart (s : jsstring) :
  sentenceCount (trimStart s) = sentenceCount s.
Proof.
  rewrite !sentenceCount_matches.
  induction s as [|c s IH]; simpl trimStart; [reflexivity|].
  destruct (is_white_space c) eqn:Hw; [|reflexivity].
  cbn [matches]. now rewrite (white_space_not_terminator c Hw).
Qed.

Lemma sentenceCount_rev (s : jsstring) :
  sentenceCount (rev s) = sentenceCount s.
Proof.
  induction s as [|c s IH]; simpl; [reflexivity|].
  rewrite sentenceCount_app, IH.
  change (c :: s) with ([c] ++ s). rewrite sentenceCount_app. lia.
Qed.

Lemma sentenceCount_trim (s : jsstring) :
  sentenceCount (trim s) = sentenceCount s.
Proof.
  unfold trim, trimEnd.
  now rewrite sentenceCount_rev, sentenceCount_trimStart, sentenceCount_rev,
    sentenceCount_trimStart.
Qed.

Lemma sentenceCount_existing (heard : jsstring) :
  sentenceCount (existing_text heard) = sentenceCount heard.
Proof.
  unfold existing_text. destruct (nonempty heard) eqn:Hn.
  - rewrite sentenceCount_app. change (sentenceCount (lit " ")) with 0. lia.
  - destruct heard; [reflexivity | discriminate].
Qed.

(** ** The accumulation step *)

Lemma fold_collect (rs : list SpeechRecognitionResult) (interim final : jsstring) :
  fold_left collect rs (interim, final) =
  (interim ++ interim_text rs, final ++ final_text rs).
Proof.
  revert interim final.
  induction rs as [|r rs IH]; intros interim final.
  - unfold interim_text, final_text. simpl. now rewrite !app_nil_r.
  - simpl. unfold interim_text, final_text in *. simpl.
    destruct (isFinal r); simpl; rewrite IH; now rewrite <- !app_assoc.
Qed.

Lemma combined_text_eq (heard : jsstring) (e : SpeechRecognitionEvent) :
  combined_text heard e = trim (existing_text heard ++ appended_text e).
Proof.
  unfold combined_text, appended_text, existing_text.
  now rewrite fold_collect.
Qed.

Lemma sentenceCount_combined (heard : jsstring) (e : SpeechRecognitionEvent) :
  sentenceCount (combined_text heard e) =
  sentenceCount heard + sentenceCount (appended_text e).
Proof.
  now rewrite combined_text_eq, sentenceCount_trim, sentenceCount_app,
    sentenceCount_existing.
Qed.

Lemma trimStart_head (s : jsstring) :
  trimStart s = [] \/
  exists c t, trimStart s = c :: t /\ is_white_space c = false.
Proof.
  induction s as [|c s IH]; simpl; [now left|].
  destruct (is_white_space c) eqn:Hc; [exact IH|].
  right. now exists c, s.
Qed.

Lemma trimStart_idem (s : jsstring) : trimStart (trimStart s) = trimStart s.
Proof.
  destruct (trimStart_head s) as [-> | (c & t & -> & Hc)]; [reflexivity|].
  simpl. now rewrite Hc.
Qed.

Lemma trim_idem (s : jsstring) : trim (trim s) = trim s.
Proof.
  unfold trim.
  assert (Hs : trimStart (trimEnd (trimStart s)) = trimEnd (trimStart s)).
  { destruct (trimStart_head s) as [-> | (c & t & -> & Hc)]; [reflexivity|].
    change (c :: t) with ([c] ++ t). rewrite trimEnd_app.
    assert (H1 : trimEnd [c] = [c]) by (unfold trimEnd; simpl; now rewrite Hc).
    destruct (forallb is_white_space t).
    - rewrite H1. simpl. now rewrite Hc.
    - simpl. now rewrite Hc. }
  rewrite Hs. unfold trimEnd. now rewrite rev_involutive, trimStart_idem.
Qed.

(** The handler leaves the buffer trimmed. *)
Lemma combined_text_trimmed (heard : jsstring) (e : SpeechRecognitionEvent) :
  trim (combined_text heard e) = combined_text heard e.
Proof. rewrite combined_text_eq. apply trim_idem. Qed.

(** ** The handlers *)

Arguments lit : simpl never.
Arguments of_N : simpl never.
Arguments trim : simpl never.
Arguments sentenceCount : simpl never.
Arguments combined_text : simpl never.
Arguments ToString : simpl never.
Arguments pickKannadaVoice : simpl never.
Arguments translate : simpl never.

Ltac unfold_handlers :=
  unfold run, if_recognition,
    onresult, onerror, onend, btnStart_click, btnStop_click, btnReset_click,
    btnTranslateToEn_click, btnTranslateToEn_resume,
    btnTranslateToKn_click, btnTranslateToKn_resume, btnTranslateToKn_spoken,
    btnSpeakAgain_click, btnSpeakAgain_failed, speakKannada, await,
    recognition_start, recognition_stop, call_recognition, try_,
    setListening, setStatus, setError,
    when, try_catch, bind, ret, throw, gets, modify.

Section ControllerProps.

Variable R : Type.
Variable rec_start rec_stop : R -> R * option exn.
Variable toLowerCase : jsstring -> jsstring.
Variable NumberToString : float -> jsstring.

(** [onresult] never throws. *)
Lemma onresult_normal (e : SpeechRecognitionEvent) (w : World R) :
  fst (onresult rec_stop e w) = Normal tt.
Proof.
  unfold_handlers.
  destruct (MAX_SENTENCES <=? sentenceCount (combined_text (knHeard w) e));
    cbn; [|reflexivity].
  destruct (recognition w) as [r|]; cbn; [|reflexivity].
  destruct (rec_stop r) as [r' [x|]]; reflexivity.
Qed.

Lemma onresult_knHeard (e : SpeechRecognitionEvent) (w : World R) :
  knHeard (run (onresult rec_stop e) w) = combined_text (knHeard w) e.
Proof.
  unfold_handlers.
  destruct (MAX_SENTENCES <=? sentenceCount (combined_text (knHeard w) e));
    cbn; [|reflexivity].
  destruct (recognition w) as [r|]; cbn; [|reflexivity].
  destruct (rec_stop r) as [r' [x|]]; reflexivity.
Qed.

(** Below the limit the handler only stores the text. *)
Lemma onresult_below (e : SpeechRecognitionEvent) (w : World R) :
  sentenceCount (combined_text (knHeard w) e) < MAX_SENTENCES ->
  run (onresult rec_stop e) w = set_knHeard (combined_text (knHeard w) e) w.
Proof.
  intros H. unfold_handlers.
  destruct (Nat.leb_spec MAX_SENTENCES (sentenceCount (combined_text (knHeard w) e)));
    [lia | reflexivity].
Qed.

(** At the limit it raises the stop: [reachedMax], a [stop()] request,
    and [setListening(false)]. *)
Lemma onresult_limit (e : SpeechRecognitionEvent) (w : World R) :
  MAX_SENTENCES <= sentenceCount (combined_text (knHeard w) e) ->
  let w' := run (onresult rec_stop e) w in
  reachedMax w' = true /\ listening w' = false /\
  rec_calls w' = stop_requested w /\
  btnStart_disabled w' = false /\ btnStop_disabled w' = true /\
  manualStop w' = manualStop w.
Proof.
  intros H. unfold stop_requested. unfold_handlers.
  destruct (Nat.leb_spec MAX_SENTENCES (sentenceCount (combined_text (knHeard w) e)));
    [|lia]. cbn.
  destruct (recognition w) as [r|]; cbn; [|now repeat split].
  destruct (rec_stop r) as [r' [x|]]; cbn; now repeat split.
Qed.

Lemma onresult_recognition (e : SpeechRecognitionEvent) (w : World R) :
  recognition w <> None -> recognition (run (onresult rec_stop e) w) <> None.
Proof.
  intros H. unfold_handlers.
  destruct (MAX_SENTENCES <=? sentenceCount (combined_text (knHeard w) e));
    cbn; [|exact H].
  destruct (recognition w) as [r|]; cbn; [|now contradiction H].
  destruct (rec_stop r) as [r' [x|]]; cbn; discriminate.
Qed.

Lemma zero_finals (rs : list SpeechRecognitionResult) :
  filter isFinal rs = [] -> final_text rs = [].
Proof. unfold final_text. now intros ->. Qed.

Local Abbreviation step' := (step rec_start rec_stop toLowerCase NumberToString).
Local Abbreviation steps' := (steps rec_start rec_stop toLowerCase NumberToString).

Lemma step_result (w : World R) (e : SpeechRecognitionEvent) :
  recognition w <> None ->
  step' w (RecognizerResult e) = run (onresult rec_stop e) w.
Proof.
  intros H. cbn. unfold if_recognition.
  destruct (recognition w); [reflexivity | contradiction].
Qed.

(** C1 (as amended): every result batch, whether or not the session is
    listening, appends to the one transcript buffer the batch's final
    fragments, concatenated in recognizer order with nothing between them,
    or, when that concatenation is empty, its interim fragments, each
    followed by a space; the appended text follows the old content after a
    single space and the whole is trimmed.  Old content that is trimmed, as
    the handler always leaves it, stays in place as a prefix of the new
    content. *)
Theorem C1_accumulation (w : World R) (e : SpeechRecognitionEvent) :
  let w' := run (onresult rec_stop e) w in
  knHeard w' = trim (existing_text (knHeard w) ++ appended_text e) /\
  (final_text (new_results e) <> [] ->
   appended_text e = final_text (new_results e)) /\
  (final_text (new_results e) = [] ->
   appended_text e = interim_text (new_results e)) /\
  (trim (knHeard w) = knHeard w -> is_prefix (knHeard w) (knHeard w')) /\
  trim (knHeard w') = knHeard w'.
Proof.
  cbv zeta. rewrite onresult_knHeard, combined_text_eq.
  split; [reflexivity|]. split; [|split; [|split]].
  - unfold appended_text. destruct (final_text (new_results e)); easy.
  - unfold appended_text. now intros ->.
  - intros Ht. unfold existing_text.
    destruct (knHeard w) as [|c k] eqn:Hk.
    + now exists (trim (appended_text e)).
    + cbn [nonempty]. rewrite <- app_assoc. now apply trim_app_prefix.
  - apply trim_idem.
Qed.

(** C2 (as amended): a batch with no final fragment appends its interim
    fragments to the transcript buffer, and the sentence terminators they
    carry count: the stop is raised exactly when the buffer, after the
    append, holds at least [MAX_SENTENCES] terminators. *)
Theorem C2_interim_only_batch (w : World R) (e : SpeechRecognitionEvent) :
  filter isFinal (new_results e) = [] ->
  let w' := run (onresult rec_stop e) w in
  knHeard w' =
    trim (existing_text (knHeard w) ++ interim_text (new_results e)) /\
  sentenceCount (knHeard w') =
    sentenceCount (knHeard w) + sentenceCount (interim_text (new_results e)) /\
  (MAX_SENTENCES <= sentenceCount (knHeard w') ->
   reachedMax w' = true /\ listening w' = false /\
   rec_calls w' = stop_requested w) /\
  (sentenceCount (knHeard w') < MAX_SENTENCES ->
   reachedMax w' = reachedMax w /\ listening w' = listening w /\
   rec_calls w' = rec_calls w).
Proof.
  intros Hz. cbv zeta.
  assert (Ha : appended_text e = interim_text (new_results e)).
  { unfold appended_text. now rewrite (zero_finals _ Hz). }
  rewrite onresult_knHeard. rewrite sentenceCount_combined, combined_text_eq, Ha.
  split; [reflexivity|]. split; [reflexivity|]. rewrite <- Ha. split.
  - intros Hl. rewrite <- sentenceCount_combined in Hl.
    destruct (onresult_limit e w Hl) as (H1 & H2 & H3 & _). auto.
  - intros Hl. rewrite <- sentenceCount_combined in Hl.
    rewrite (onresult_below e w Hl). now cbn.
Qed.

Lemma fold_combined_count (later : list SpeechRecognitionEvent) (heard : jsstring) :
  sentenceCount heard <= sentenceCount (fold_left combined_text later heard).
Proof.
  revert heard. induction later as [|e later IH]; intros heard; cbn [fold_left];
    [lia|].
  specialize (IH (combined_text heard e)).
  rewrite sentenceCount_combined in IH. lia.
Qed.

(** Result events delivered once the buffer holds [MAX_SENTENCES]
    terminators: each is accumulated and each raises the stop again. *)
Lemma results_after_limit (later : list SpeechRecognitionEvent) (w : World R) :
  recognition w <> None ->
  MAX_SENTENCES <= sentenceCount (knHeard w) ->
  reachedMax w = true -> listening w = false ->
  let w' := steps' w (map RecognizerResult later) in
  knHeard w' = fold_left combined_text later (knHeard w) /\
  reachedMax w' = true /\ listening w' = false /\
  rec_calls w' = rec_calls w ++ repeat CallStop (List.length later).
Proof.
  revert w. induction later as [|e later IH]; intros w Hr Hc Hm Hl.
  - cbn. now rewrite app_nil_r.
  - cbv zeta. unfold steps. cbn [map fold_left]. rewrite step_result by exact Hr.
    assert (Hc' : MAX_SENTENCES <= sentenceCount (combined_text (knHeard w) e))
      by (rewrite sentenceCount_combined; lia).
    destruct (onresult_limit e w Hc') as (H1 & H2 & H3 & _).
    pose proof (onresult_knHeard e w) as Hk.
    pose proof (onresult_recognition e w Hr) as Hr'.
    specialize (IH (run (onresult rec_stop e) w) Hr').
    rewrite Hk in IH. specialize (IH Hc' H1 H2).
    cbv zeta in IH. unfold steps in IH.
    destruct IH as (I1 & I2 & I3 & I4).
    rewrite I1, I2, I3, I4, H3. unfold stop_requested.
    destruct (recognition w); [|contradiction].
    repeat split. now rewrite <- app_assoc.
Qed.

(** C4 (as amended): when a result event brings the sentence count of the
    buffer to [MAX_SENTENCES], [reachedMax] is set, the recognizer's stop
    is requested and [listening] becomes false.  The result handler does
    not look at [listening]: every result event delivered afterwards is
    still appended to the buffer, sets [reachedMax] and requests the stop
    again, and [listening] stays false. *)
Theorem C4_limit_reached (w : World R) (e : SpeechRecognitionEvent)
        (later : list SpeechRecognitionEvent) :
  recognition w <> None ->
  MAX_SENTENCES <= sentenceCount (combined_text (knHeard w) e) ->
  let w1 := step' w (RecognizerResult e) in
  let w2 := steps' w1 (map RecognizerResult later) in
  reachedMax w1 = true /\ listening w1 = false /\
  rec_calls w1 = rec_calls w ++ [CallStop] /\
  knHeard w2 = fold_left combined_text later (knHeard w1) /\
  reachedMax w2 = true /\ listening w2 = false /\
  rec_calls w2 = rec_calls w1 ++ repeat CallStop (List.length later).
Proof.
  intros Hr Hc. cbv zeta. rewrite step_result by exact Hr.
  destruct (onresult_limit e w Hc) as (H1 & H2 & H3 & _).
  pose proof (onresult_knHeard e w) as Hk.
  assert (Hc1 : MAX_SENTENCES <= sentenceCount (knHeard (run (onresult rec_stop e) w)))
    by now rewrite Hk.
  destruct (results_after_limit later _ (onresult_recognition e w Hr) Hc1 H1 H2)
    as (I1 & I2 & I3 & I4).
  repeat split; try assumption.
  unfold stop_requested in H3. destruct (recognition w); [exact H3 | contradiction].
Qed.

(** C8 (as amended): the sentence count of a string never decreases when
    text is appended to it.  Across an accumulation step the count of the
    transcript buffer grows by exactly the count of the text the step
    appends, the batch's final text or, for lack of it, its interim text;
    so it never decreases, and it is unchanged exactly when the appended
    text holds no terminator.  An interim-only batch is no exception: the
    count grows by the terminators of its interim text. *)
Theorem C8_sentenceCount_monotone (s t : jsstring) (w : World R)
        (e : SpeechRecognitionEvent) :
  let w' := run (onresult rec_stop e) w in
  sentenceCount s <= sentenceCount (s ++ t) /\
  sentenceCount (knHeard w') =
    sentenceCount (knHeard w) + sentenceCount (appended_text e) /\
  sentenceCount (knHeard w) <= sentenceCount (knHeard w') /\
  (sentenceCount (knHeard w') = sentenceCount (knHeard w) <->
   sentenceCount (appended_text e) = 0) /\
  (filter isFinal (new_results e) = [] ->
   sentenceCount (knHeard w') =
   sentenceCount (knHeard w) + sentenceCount (interim_text (new_results e))).
Proof.
  cbv zeta. rewrite sentenceCount_app, onresult_knHeard, sentenceCount_combined.
  split; [lia|]. split; [reflexivity|]. split; [lia|]. split; [lia|].
  intros Hz. unfold appended_text. now rewrite (zero_finals _ Hz).
Qed.

(** C5: when the recognizer ends while [listening] is true and neither
    [manualStop] nor [reachedMax] is set, the handler calls the
    recognizer's [start()] again and swallows whatever that call throws;
    when [listening] is false or one of the two flags is set, it calls
    nothing and changes nothing. *)
Theorem C5_auto_restart (w : World R) (r : R) :
  recognition w = Some r ->
  fst (onend rec_start w) = Normal tt /\
  (listening w = true /\ manualStop w = false /\ reachedMax w = false ->
   run (onend rec_start) w = recognizer_called CallStart (fst (rec_start r)) w) /\
  (listening w = false \/ manualStop w = true \/ reachedMax w = true ->
   run (onend rec_start) w = w).
Proof.
  intros Hr. unfold recognizer_called. unfold_handlers.
  destruct (listening w), (manualStop w), (reachedMax w); cbn;
    rewrite ?Hr; destruct (rec_start r) as [r' [x|]]; cbn;
    repeat split; try reflexivity; intros H;
    try (destruct H as (? & ? & ?); discriminate);
    try (destruct H as [? | [? | ?]]; discriminate).
Qed.


(** Stop, the sibling of Reset, does leave the listening state. *)
Lemma btnStop_click_effect (w : World R) :
  let w' := run (btnStop_click rec_stop) w in
  manualStop w' = true /\ rec_calls w' = stop_requested w /\
  listening w' = false /\
  btnStart_disabled w' = false /\ btnStop_disabled w' = true.
Proof.
  unfold stop_requested. unfold_handlers. cbn.
  destruct (recognition w) as [r|]; cbn; [|now repeat split].
  destruct (rec_stop r) as [r' [x|]]; cbn; now repeat split.
Qed.

(** C10: when Start is pressed on a platform with speech recognition and
    the recognizer's [start()] throws, [listening] stays as it was, but
    the four text fields have been cleared and [manualStop] and
    [reachedMax] set to false all the same; the failure is reported on the
    error line. *)
Theorem C10_failed_start (w : World R) (r : R) (x : exn) :
  hasSTT w = true ->
  recognition w = Some r ->
  snd (rec_start r) = Some x ->
  let w' := run (btnStart_click rec_start) w in
  fst (btnStart_click rec_start w) = Normal tt /\
  listening w' = listening w /\
  manualStop w' = false /\ reachedMax w' = false /\
  knHeard w' = [] /\ enMeaning w' = [] /\ myReplyEn w' = [] /\
  knReply w' = [] /\
  errorLine w' =
    lit "Could not start mic. Allow mic permission and retry." /\
  rec_calls w' = rec_calls w ++ [CallStart].
Proof.
  intros Hs Hr Hx. unfold_handlers. cbn. rewrite Hs. cbn. rewrite Hr.
  destruct (rec_start r) as [r' o]. cbn in Hx. subst o. cbn.
  now repeat split.
Qed.

End ControllerProps.

(** ** The translation cascade *)

Arguments truthy : simpl never.
Arguments get_property : simpl never.
Arguments get_optional : simpl never.
Arguments ok : simpl never.
Arguments isWellFormed : simpl never.

Ltac unfold_io :=
  unfold translate, translateViaLibre, translateViaMyMemory,
    encodeURIComponents, fetch, res_json, emit,
    try_catch, bind, ret, throw, gets, modify.

Section CascadeProps.

Variable net : Network.
Variable r : TranslationRequest.

Lemma translateViaLibre_spec (text : json) :
  fst (translateViaLibre net r []) = Normal text <-> primary_accepts net r text.
Proof.
  unfold primary_accepts. unfold_io. cbn.
  destruct (net (LibrePost r)) as [|res] eqn:Hn; cbn.
  { split; [discriminate | intros (res & data & H & _); discriminate]. }
  assert (Hres : forall res', Responds res = Responds res' -> res' = res)
    by (intros ? [=]; congruence).
  destruct (ok res) eqn:Hok; cbn.
  2:{ split; [discriminate|]. intros (res' & data & H & Hok' & _).
      apply Hres in H. congruence. }
  destruct (body res) as [data|] eqn:Hb; cbn.
  2:{ split; [discriminate|]. intros (res' & data & H & _ & Hb' & _).
      apply Hres in H. congruence. }
  destruct (truthy (Some data)) eqn:Hd; cbn.
  2:{ split; [discriminate|]. intros (res' & data' & H & _ & Hb' & Hd' & _).
      apply Hres in H. congruence. }
  destruct (get_property data (lit "translatedText")) as [v|] eqn:Hg; cbn.
  2:{ split; [discriminate|].
      intros (res' & data' & H & _ & Hb' & _ & Hg' & _).
      apply Hres in H. congruence. }
  destruct (truthy (Some v)) eqn:Hv; cbn.
  - split.
    + intros [= <-]. now exists res, data.
    + intros (res' & data' & H & _ & Hb' & _ & Hg' & _).
      apply Hres in H. congruence.
  - split; [discriminate|].
    intros (res' & data' & H & _ & Hb' & _ & Hg' & Hv').
    apply Hres in H. congruence.
Qed.

Lemma translateViaLibre_fails :
  primary_refuses net r -> exists x, fst (translateViaLibre net r []) = Throw x.
Proof.
  unfold primary_refuses. unfold_io. cbn.
  intros [Hn | (res & Hn & H)]; rewrite Hn; cbn; [eauto|].
  destruct H as [Hok | [Hb | (data & Hb & H)]].
  - rewrite Hok. cbn. eauto.
  - destruct (ok res); cbn; [|eauto]. rewrite Hb. cbn. eauto.
  - destruct (ok res); cbn; [|eauto]. rewrite Hb. cbn.
    destruct H as [H | H]; rewrite H; cbn; [eauto|].
    rewrite orb_true_r. cbn. eauto.
Qed.

(** One call of the primary provider fetches once. *)
Lemma translateViaLibre_io (l : list IoEvent) :
  translateViaLibre net r l =
  (fst (translateViaLibre net r []), l ++ [Fetch (LibrePost r)]).
Proof.
  unfold_io. cbn.
  destruct (net (LibrePost r)) as [|res]; cbn; [reflexivity|].
  destruct (ok res); cbn; [|reflexivity].
  destruct (body res) as [data|]; cbn; [|reflexivity].
  destruct (negb (truthy (Some data)) || _); cbn; [reflexivity|].
  destruct (get_property data (lit "translatedText")); reflexivity.
Qed.

(** The secondary provider's call does not depend on what went before. *)
Lemma translateViaMyMemory_io (l : list IoEvent) :
  translateViaMyMemory net r l =
  (fst (translateViaMyMemory net r []), l ++ snd (translateViaMyMemory net r [])).
Proof.
  unfold_io. cbn.
  destruct (isWellFormed (q r) && isWellFormed (source r) && isWellFormed (target r));
    cbn; [|now rewrite app_nil_r].
  destruct (net (MyMemoryGet r)) as [|res]; cbn; [reflexivity|].
  destruct (ok res); cbn; [|reflexivity].
  destruct (body res) as [data|]; cbn; [|reflexivity].
  destruct (negb (truthy _)); cbn; [reflexivity|].
  destruct (get_optional _ _); reflexivity.
Qed.

Lemma translateViaLibre_throws :
  (exists x, fst (translateViaLibre net r []) = Throw x) <-> primary_refuses net r.
Proof.
  split; [|apply translateViaLibre_fails].
  unfold primary_refuses. unfold_io. cbn.
  destruct (net (LibrePost r)) as [|res]; cbn; [now left|].
  intros H. right. exists res. split; [reflexivity|].
  destruct (ok res); cbn in H; [|now left]. right.
  destruct (body res) as [data|]; cbn in H; [|now left]. right.
  exists data. split; [reflexivity|].
  destruct (truthy (Some data)); cbn in H; [|now left]. right.
  destruct (truthy (get_property data (lit "translatedText"))) eqn:Hg;
    cbn in H; [|reflexivity].
  destruct (get_property data (lit "translatedText")); cbn in H.
  - destruct H as [x H]. discriminate.
  - discriminate.
Qed.

(** The secondary provider's call fetches its URL once, unless the URL
    cannot be built. *)
Lemma translateViaMyMemory_fetches :
  snd (translateViaMyMemory net r []) =
  if isWellFormed (q r) && isWellFormed (source r) && isWellFormed (target r)
  then [Fetch (MyMemoryGet r)]
  else [].
Proof.
  unfold_io. cbn.
  destruct (isWellFormed (q r) && isWellFormed (source r) && isWellFormed (target r));
    cbn; [|reflexivity].
  destruct (net (MyMemoryGet r)) as [|res]; cbn; [reflexivity|].
  destruct (ok res); cbn; [|reflexivity].
  destruct (body res) as [data|]; cbn; [|reflexivity].
  destruct (negb (truthy _)); cbn; [reflexivity|].
  destruct (get_optional _ _); reflexivity.
Qed.

(** C3: [translate] returns the primary provider's text when the primary
    call yields a truthy [translatedText]; when the primary call fails in
    any way (no response, a status that is not a success, a body that is
    not JSON, a payload without a truthy [translatedText]), a warning is
    logged, the same request goes to the secondary provider and
    [translate] completes as that call does; so [translate] fails exactly
    when both calls fail, and then it yields an exception and no text. *)
Theorem C3_translation_cascade :
  let primary := fst (translateViaLibre net r []) in
  let secondary := fst (translateViaMyMemory net r []) in
  let result := fst (translate net r []) in
  let io := snd (translate net r []) in
  (forall text, primary_accepts net r text ->
     result = Normal text /\ io = [Fetch (LibrePost r)]) /\
  (primary_refuses net r ->
     result = secondary /\
     exists x, primary = Throw x /\
               io = [Fetch (LibrePost r); ConsoleWarn x]
                      ++ snd (translateViaMyMemory net r [])) /\
  ((exists text, primary_accepts net r text) \/ primary_refuses net r) /\
  ((exists x, result = Throw x) <->
   primary_refuses net r /\ (exists x2, secondary = Throw x2)) /\
  (forall text, result = Normal text ->
     primary_accepts net r text \/
     (primary_refuses net r /\ secondary = Normal text)).
Proof.
  cbv zeta.
  assert (Hp : forall text, fst (translateViaLibre net r []) = Normal text ->
               translate net r [] = (Normal text, [Fetch (LibrePost r)])).
  { intros text H. unfold translate, try_catch.
    rewrite translateViaLibre_io, H. reflexivity. }
  assert (Hf : forall x, fst (translateViaLibre net r []) = Throw x ->
               translate net r [] =
               (fst (translateViaMyMemory net r []),
                [Fetch (LibrePost r); ConsoleWarn x]
                  ++ snd (translateViaMyMemory net r []))).
  { intros x H. unfold translate, try_catch.
    rewrite translateViaLibre_io, H. unfold emit, bind, modify. cbn.
    now rewrite translateViaMyMemory_io. }
  split; [|split; [|split; [|split]]].
  - intros text Ha. apply translateViaLibre_spec in Ha.
    now rewrite (Hp text Ha).
  - intros Hr. apply translateViaLibre_throws in Hr. destruct Hr as [x Hx].
    rewrite (Hf x Hx). cbn. split; [reflexivity|]. now exists x.
  - destruct (fst (translateViaLibre net r [])) as [text|x] eqn:H1.
    + left. exists text. now apply translateViaLibre_spec.
    + right. apply translateViaLibre_throws. now exists x.
  - rewrite <- translateViaLibre_throws.
    destruct (fst (translateViaLibre net r [])) as [text|x1] eqn:H1.
    + rewrite (Hp text eq_refl). cbn. split.
      * intros [x Hx]. discriminate.
      * intros [[x1 Hx] _]. discriminate.
    + rewrite (Hf x1 eq_refl). cbn. split.
      * intros Hx. split; [now exists x1 | exact Hx].
      * intros [_ Hx]. exact Hx.
  - intros text. rewrite <- translateViaLibre_throws, <- translateViaLibre_spec.
    destruct (fst (translateViaLibre net r [])) as [t1|x1] eqn:H1.
    + rewrite (Hp t1 eq_refl). cbn. intros [= ->]. now left.
    + rewrite (Hf x1 eq_refl). cbn. intros H. right.
      split; [now exists x1 | exact H].
Qed.

End CascadeProps.

(** ** Voice selection *)

Lemma jsstring_eqb_eq (s t : jsstring) : JsString.eqb s t = true <-> s = t.
Proof.
  revert t. induction s as [|c s IH]; intros [|d t]; cbn; try easy.
  rewrite andb_true_iff, N.eqb_eq, IH. split.
  - now intros [-> ->].
  - now intros [= -> ->].
Qed.

Lemma find_first_such {A} (f : A -> bool) (P : A -> Prop) (l : list A) :
  (forall x, P x <-> f x = true) ->
  match find f l with
  | Some v => first_such P l v
  | None => forall x, In x l -> ~ P x
  end.
Proof.
  intros HP. induction l as [|a l IH]; cbn; [easy|].
  destruct (f a) eqn:Ha.
  - exists [], l. repeat split; [now apply HP | constructor].
  - assert (Hna : ~ P a) by (rewrite HP; congruence).
    destruct (find f l) as [v|].
    + destruct IH as (before & after & -> & Hv & Hb).
      exists (a :: before), after. repeat split; [exact Hv | now constructor].
    + intros x [<- | Hx]; [exact Hna | now apply IH].
Qed.

Section VoiceProps.

Variable toLowerCase : jsstring -> jsstring.

Local Abbreviation exact_tag := (exact_voice toLowerCase).
Local Abbreviation prefix_tag := (prefix_voice toLowerCase).
Local Abbreviation fallback_tag := (fallback_voice toLowerCase).

Lemma first_or_none (f : Voice -> bool) (P : Voice -> Prop) (voices : list Voice) :
  (forall x, P x <-> f x = true) ->
  (some_voice P voices ->
   exists v, find f voices = Some v /\ first_such P voices v) /\
  (~ some_voice P voices -> find f voices = None).
Proof.
  intros HP. pose proof (find_first_such f P voices HP) as H.
  destruct (find f voices) as [v|]; split.
  - intros _. now exists v.
  - intros Hn. destruct H as (before & after & -> & Hv & _).
    exfalso. apply Hn. exists v. split; [|exact Hv].
    apply in_or_app. right. now left.
  - intros (v & Hin & Hv). now destruct (H v Hin).
  - reflexivity.
Qed.

(** C9: [pickKannadaVoice] returns the first voice whose language tag
    equals kn-IN up to case; failing that, the first whose lower-cased tag
    starts with kn; failing that, the first whose lower-cased tag contains
    en-in; failing that, the first voice of the catalogue; and null when
    the catalogue is empty. *)
Theorem C9_voice_preference (voices : list Voice) :
  toLowerCase (lit "kn-IN") = lit "kn-in" ->
  let pick := pickKannadaVoice toLowerCase voices in
  (some_voice exact_tag voices ->
   exists v, pick = Some v /\ first_such exact_tag voices v) /\
  (~ some_voice exact_tag voices ->
   some_voice prefix_tag voices ->
   exists v, pick = Some v /\ first_such prefix_tag voices v) /\
  (~ some_voice exact_tag voices ->
   ~ some_voice prefix_tag voices ->
   some_voice fallback_tag voices ->
   exists v, pick = Some v /\ first_such fallback_tag voices v) /\
  (~ some_voice exact_tag voices ->
   ~ some_voice prefix_tag voices ->
   ~ some_voice fallback_tag voices ->
   pick = hd_error voices) /\
  (voices = [] -> pick = None).
Proof.
  intros Hkn. cbv zeta. unfold pickKannadaVoice, byLang.
  assert (Ha : forall x, exact_tag x <->
                         JsString.eqb (lower_lang toLowerCase x) (lit "kn-in") = true).
  { intros x. unfold exact_voice, equals_ignoring_case, lower_lang.
    now rewrite Hkn, jsstring_eqb_eq. }
  destruct (first_or_none _ _ voices Ha) as [A1 A2].
  destruct (first_or_none (fun v => startsWith (lower_lang toLowerCase v) (lit "kn"))
              prefix_tag voices (fun x => iff_refl _)) as [B1 B2].
  destruct (first_or_none (fun v => includes (lower_lang toLowerCase v) (lit "en-in"))
              fallback_tag voices (fun x => iff_refl _)) as [C1 C2].
  split; [|split; [|split; [|split]]].
  - intros H. destruct (A1 H) as (v & -> & Hv). now exists v.
  - intros Hna H. rewrite (A2 Hna). destruct (B1 H) as (v & -> & Hv). now exists v.
  - intros Hna Hnb H. rewrite (A2 Hna), (B2 Hnb).
    destruct (C1 H) as (v & -> & Hv). now exists v.
  - intros Hna Hnb Hnc. rewrite (A2 Hna), (B2 Hnb), (C2 Hnc).
    now destruct voices.
  - now intros ->.
Qed.

End VoiceProps.

(** ** Suspended handlers and late responses *)



Lemma take_ticket_awaited (t : nat) (l : list (nat * Awaiting)) (a : Awaiting) :
  awaited_in t l = Some a -> exists rest, take_ticket t l = Some (a, rest).
Proof.
  induction l as [|[t' a'] l IH]; cbn; [discriminate|].
  destruct (t' =? t).
  - intros [= ->]. now exists l.
  - intros H. destruct (IH H) as [rest ->]. now exists ((t', a') :: rest).
Qed.


Ltac break_handler :=
  unfold_handlers; cbn;
  repeat (match goal with
          | |- context [if ?c then _ else _] => destruct c
          | |- context [match recognition ?w with _ => _ end] =>
              destruct (recognition w)
          | |- context [match ?f ?r with (_, _) => _ end] =>
              destruct (f r) as [? [?|]]
          | |- context [match pickKannadaVoice ?f ?vs with _ => _ end] =>
              destruct (pickKannadaVoice f vs)
          | |- context [match voice_lang ?v with _ => _ end] =>
              destruct (voice_lang v)
          | |- context [match ?x with _ => _ end] =>
              is_var x;
              lazymatch type of x with
              | World _ => fail
              | _ => destruct x
              end
          end; cbn).

Ltac solve_awaits :=
  intros w; break_handler;
  solve [ left; split; reflexivity
        | right; eexists; split; reflexivity ].

Section InterleavingProps.

Variable R : Type.
Variable rec_start rec_stop : R -> R * option exn.
Variable toLowerCase : jsstring -> jsstring.
Variable NumberToString : float -> jsstring.

Local Abbreviation step' := (step rec_start rec_stop toLowerCase NumberToString).
Local Abbreviation steps' := (steps rec_start rec_stop toLowerCase NumberToString).

Lemma btnStart_click_awaits : awaits_at_most_once (btnStart_click (R:=R) rec_start).
Proof. solve_awaits. Qed.

Lemma btnStop_click_awaits : awaits_at_most_once (btnStop_click (R:=R) rec_stop).
Proof. solve_awaits. Qed.

Lemma btnReset_click_awaits : awaits_at_most_once (btnReset_click (R:=R) rec_stop).
Proof. solve_awaits. Qed.

Lemma onresult_awaits e : awaits_at_most_once (onresult (R:=R) rec_stop e).
Proof.
  intros w. unfold_handlers.
  destruct (MAX_SENTENCES <=? sentenceCount (combined_text (knHeard w) e));
    break_handler; left; split; reflexivity.
Qed.

Lemma onerror_awaits error : awaits_at_most_once (onerror (R:=R) error).
Proof. solve_awaits. Qed.

Lemma onend_awaits : awaits_at_most_once (onend (R:=R) rec_start).
Proof. solve_awaits. Qed.

Lemma btnTranslateToEn_click_awaits :
  awaits_at_most_once (btnTranslateToEn_click (R:=R)).
Proof. solve_awaits. Qed.

Lemma btnTranslateToKn_click_awaits :
  awaits_at_most_once (btnTranslateToKn_click (R:=R)).
Proof. solve_awaits. Qed.

Lemma btnTranslateToEn_resume_awaits c :
  awaits_at_most_once (btnTranslateToEn_resume (R:=R) NumberToString c).
Proof. solve_awaits. Qed.

Lemma btnTranslateToKn_resume_awaits c :
  awaits_at_most_once (btnTranslateToKn_resume (R:=R) toLowerCase NumberToString c).
Proof. solve_awaits. Qed.

Lemma btnTranslateToKn_spoken_awaits o :
  awaits_at_most_once (btnTranslateToKn_spoken (R:=R) o).
Proof. solve_awaits. Qed.

Lemma btnSpeakAgain_click_awaits :
  awaits_at_most_once (btnSpeakAgain_click (R:=R) toLowerCase).
Proof. solve_awaits. Qed.

Lemma settled_speech_awaits (outcome : option exn) :
  awaits_at_most_once
    (match outcome with
     | None => ret tt
     | Some _ => btnSpeakAgain_failed (R:=R)
     end).
Proof. solve_awaits. Qed.

Create HintDb awaits.
#[local] Hint Resolve btnStart_click_awaits btnStop_click_awaits
  btnReset_click_awaits onresult_awaits onerror_awaits onend_awaits
  btnTranslateToEn_click_awaits btnTranslateToKn_click_awaits
  btnTranslateToEn_resume_awaits btnTranslateToKn_resume_awaits
  btnTranslateToKn_spoken_awaits btnSpeakAgain_click_awaits
  settled_speech_awaits : awaits.


Lemma awaits_fresh (h : Handler R unit) (w : World R) :
  awaits_at_most_once h -> tickets_fresh w -> tickets_fresh (run h w).
Proof.
  intros Hh Hf. unfold tickets_fresh in *.
  destruct (Hh w) as [[-> ->] | (a' & -> & ->)]; [exact Hf|].
  apply Forall_app. split.
  - eapply Forall_impl; [|exact Hf]. cbn. intros; lia.
  - repeat constructor.
Qed.

Lemma take_ticket_fresh (t n : nat) (l rest : list (nat * Awaiting)) (a : Awaiting) :
  take_ticket t l = Some (a, rest) ->
  Forall (fun p => fst p < n) l -> Forall (fun p => fst p < n) rest.
Proof.
  revert rest. induction l as [|[u b] l IH]; cbn; [discriminate|].
  intros rest Ht Hl. inversion Hl as [|? ? Hu Hl']; subst.
  destruct (u =? t).
  - inversion Ht; subst. exact Hl'.
  - destruct (take_ticket t l) as [[a' rest']|]; [|discriminate].
    inversion Ht; subst. constructor; [exact Hu | now apply IH].
Qed.



(** Tickets stay fresh along every run. *)
Lemma step_fresh (w : World R) (ev : Event) :
  tickets_fresh w -> tickets_fresh (step' w ev).
Proof.
  intros Hf.
  assert (Hset : forall t' a' rest,
            take_ticket t' (pending w) = Some (a', rest) ->
            tickets_fresh (set_pending rest w)).
  { intros t' a' rest Ht. unfold tickets_fresh in *. cbn.
    exact (take_ticket_fresh _ _ _ _ _ Ht Hf). }
  destruct ev; cbn; unfold if_recognition;
    try (destruct (recognition w); [|exact Hf]);
    try exact Hf;
    try (apply awaits_fresh; [auto with awaits | exact Hf]);
    destruct (take_ticket ticket (pending w)) as [[[req|req|u|u] rest]|] eqn:Ht;
    try exact Hf;
    (apply awaits_fresh; [auto with awaits | eauto]).
Qed.

Lemma steps_fresh (evs : list Event) (w : World R) :
  tickets_fresh w -> tickets_fresh (steps' w evs).
Proof.
  revert w. induction evs as [|ev evs IH]; intros w Hf; [exact Hf|].
  cbn. apply IH. now apply step_fresh.
Qed.






End InterleavingProps.

(* ================================================================== *)
(** * The claims on a concrete platform *)


(** C1, as the specification states it, fails: while the session is
    listening, a batch without any final fragment appends its interim
    fragment to the transcript buffer, where the specification's committed
    buffer stays as it was. *)
Lemma C1_interim_text_is_appended :
  let e := second_batch (lit "ab") (lit "cd") false in
  let w' := Platform.step heard_ab (RecognizerResult e) in
  listening heard_ab = true /\
  knHeard heard_ab = lit "ab" /\
  filter isFinal (new_results e) = [] /\
  spec_committed (knHeard heard_ab) e = lit "ab" /\
  knHeard w' = lit "ab cd".
Proof. vm_compute. repeat split. Qed.

Lemma C1_accumulation_witness :
  let e := second_batch (lit "ab") (lit "cd") false in
  is_prefix (knHeard heard_ab)
            (knHeard (run (onresult Platform.rec_stop e) heard_ab)).
Proof.
  intros e.
  destruct (C1_accumulation Platform.R Platform.rec_stop heard_ab e)
    as (_ & _ & _ & H & _).
  apply H. vm_compute. reflexivity.
Defined.

(** C2, as the specification states it, fails: a listening session with
    an empty buffer receives one interim fragment of five sentences; the
    buffer grows to that text and the stop is raised. *)
Lemma C2_interim_text_raises_stop :
  let e := first_batch five_sentences false in
  let w' := Platform.step started (RecognizerResult e) in
  listening started = true /\ knHeard started = [] /\
  reachedMax started = false /\
  filter isFinal (new_results e) = [] /\
  knHeard w' = five_sentences /\
  reachedMax w' = true /\ listening w' = false /\
  rec_calls w' = [CallStart; CallStop].
Proof. vm_compute. repeat split. Qed.

Lemma C2_interim_only_batch_witness :
  let e := first_batch five_sentences false in
  let w' := run (onresult Platform.rec_stop e) started in
  sentenceCount (knHeard w') =
  sentenceCount (knHeard started) + sentenceCount (interim_text (new_results e)).
Proof.
  intros e w'.
  apply (C2_interim_only_batch Platform.R Platform.rec_stop started e).
  reflexivity.
Defined.

(** C4, as the specification states it, fails: the session has left the
    listening state at the limit, and the next result event is appended to
    the buffer all the same. *)
Lemma C4_result_after_limit_is_accumulated :
  let e1 := first_batch five_sentences true in
  let e2 := second_batch five_sentences (lit "f") true in
  let w1 := Platform.step started (RecognizerResult e1) in
  let w2 := Platform.step w1 (RecognizerResult e2) in
  listening w1 = false /\ reachedMax w1 = true /\
  knHeard w1 = lit "a. b. c. d. e." /\
  knHeard w2 = lit "a. b. c. d. e. f" /\
  rec_calls w2 = [CallStart; CallStop; CallStop].
Proof. vm_compute. repeat split. Qed.

Lemma C4_limit_reached_witness :
  let e1 := first_batch five_sentences true in
  let e2 := second_batch five_sentences (lit "f") true in
  let w1 := Platform.step started (RecognizerResult e1) in
  let w2 := Platform.steps w1 (map RecognizerResult [e2]) in
  knHeard w2 = fold_left combined_text [e2] (knHeard w1) /\ listening w2 = false.
Proof.
  intros e1 e2 w1 w2.
  destruct (C4_limit_reached Platform.R Platform.rec_start Platform.rec_stop
              asciiToLowerCase Platform.NumberToString started e1 [e2])
    as (_ & _ & _ & H1 & _ & H2 & _).
  - discriminate.
  - apply Nat.leb_le. vm_compute. reflexivity.
  - split; [exact H1 | exact H2].
Defined.

Lemma C5_auto_restart_witness :
  run (onend Platform.rec_start) ended =
  recognizer_called CallStart true ended.
Proof.
  destruct (C5_auto_restart Platform.R Platform.rec_start ended false eq_refl)
    as (_ & H & _).
  apply H. repeat split.
Defined.

(** C6 fails on the code: Reset pressed in a listening session sets
    [manualStop], requests the stop and clears the fields, but [listening]
    stays true and the Start button stays disabled, where Stop in the same
    session turns both off. *)
Theorem C6_reset_keeps_listening :
  let w' := Platform.step started ClickReset in
  let w'' := Platform.step started ClickStop in
  listening started = true /\
  manualStop w' = true /\ rec_calls w' = [CallStart; CallStop] /\
  knHeard w' = [] /\ enMeaning w' = [] /\ myReplyEn w' = [] /\ knReply w' = [] /\
  listening w' = true /\ btnStart_disabled w' = true /\
  listening w'' = false /\ btnStart_disabled w'' = false.
Proof. vm_compute. repeat split. Qed.



Lemma C3_translation_cascade_witness :
  fst (translate libre_down hello []) = Normal (JStr namaskara).
Proof.
  destruct (C3_translation_cascade libre_down hello) as (_ & H & _).
  destruct H as [-> _]; [|reflexivity].
  right. exists (mkResponse 500 None). split; [reflexivity|]. now left.
Defined.

(** C8, as the specification states it, fails: a batch with no final
    fragment adds nothing to the specification's committed buffer, and yet
    the sentence count of the transcript buffer goes from 0 to 1, by the
    full stop of the interim fragment. *)
Lemma C8_interim_update_changes_count :
  let e := second_batch (lit "ab") (lit "cd.") false in
  let w' := Platform.step heard_ab (RecognizerResult e) in
  filter isFinal (new_results e) = [] /\
  spec_committed (knHeard heard_ab) e = knHeard heard_ab /\
  sentenceCount (knHeard heard_ab) = 0 /\
  knHeard w' = lit "ab cd." /\
  sentenceCount (knHeard w') = 1.
Proof. vm_compute. repeat split. Qed.

Lemma C8_sentenceCount_monotone_witness :
  let e := second_batch (lit "ab") (lit "cd.") false in
  let w' := run (onresult Platform.rec_stop e) heard_ab in
  sentenceCount (knHeard w') =
  sentenceCount (knHeard heard_ab) + sentenceCount (interim_text (new_results e)).
Proof.
  intros e w'.
  destruct (C8_sentenceCount_monotone Platform.R Platform.rec_stop
              (lit "a.") (lit " b?") heard_ab e) as (_ & _ & _ & _ & H).
  apply H. reflexivity.
Defined.

Lemma C9_voice_preference_witness :
  exists v,
    pickKannadaVoice asciiToLowerCase catalogue = Some v /\
    first_such (exact_voice asciiToLowerCase) catalogue v.
Proof.
  destruct (C9_voice_preference asciiToLowerCase catalogue eq_refl) as (H & _).
  apply H.
  exists (mkVoice (lit "Kannada India") (Some (lit "KN-in"))).
  split; [cbn; tauto | reflexivity].
Defined.

Lemma C10_failed_start_witness :
  let w' := run (btnStart_click Platform.rec_start_refused) stopped_with_text in
  knHeard stopped_with_text = lit "ab" /\
  knHeard w' = [] /\ listening w' = false /\
  errorLine w' = lit "Could not start mic. Allow mic permission and retry.".
Proof.
  intros w'.
  destruct (C10_failed_start Platform.R Platform.rec_start_refused
              stopped_with_text false
              (HostException (lit "NotAllowedError")) eq_refl eq_refl eq_refl)
    as (_ & H1 & _ & _ & H2 & _ & _ & _ & H3 & _).
  subst w'. split; [reflexivity|]. split; [exact H2|].
  split; [now rewrite H1 | exact H3].
Defined.

(* ================================================================== *)
(** * Further properties of the session *)

(** ** Sentence counting, by character *)

Lemma accepts_sentence_end (c : code_unit) :
  accepts SENTENCE_END c =
  ((c =? FULL_STOP) || (c =? EXCLAMATION) || (c =? QUESTION)
   || (c =? ELLIPSIS) || (c =? DANDA))%N.
Proof.
  unfold SENTENCE_END.
  change (lit ".!?" ++ [ELLIPSIS]) with [46; 33; 63; 8230]%N.
  cbn. unfold FULL_STOP, EXCLAMATION, QUESTION, ELLIPSIS, DANDA.
  destruct (c =? 46)%N, (c =? 33)%N, (c =? 63)%N, (c =? 8230)%N, (c =? 2404)%N;
    reflexivity.
Qed.

(** X1: [sentenceCount] is the number of full stops, exclamation marks,
    question marks, ellipses and dandas of the text, each occurrence
    counted; so it is at most the length of the text. *)
Theorem sentenceCount_by_character (t : jsstring) :
  sentenceCount t =
    count_occ N.eq_dec t FULL_STOP + count_occ N.eq_dec t EXCLAMATION
    + count_occ N.eq_dec t QUESTION + count_occ N.eq_dec t ELLIPSIS
    + count_occ N.eq_dec t DANDA /\
  sentenceCount t <= List.length t.
Proof.
  rewrite sentenceCount_matches.
  induction t as [|c t [IH1 IH2]]; [split; reflexivity|].
  cbn [matches count_occ List.length]. rewrite accepts_sentence_end.
  unfold FULL_STOP, EXCLAMATION, QUESTION, ELLIPSIS, DANDA in *.
  repeat match goal with
         | |- context [N.eq_dec c ?k] =>
             destruct (N.eq_dec c k) as [->|?]
         end;
    repeat match goal with
           | H : ?c <> ?k |- context [(?c =? ?k)%N] =>
               rewrite (proj2 (N.eqb_neq c k) H)
           end;
    cbn; split; lia.
Qed.

(** ** Invariants of the event loop *)

(** The messages of the program are not empty: decide the tests
    [msg || ""] on them. *)
Ltac settle_messages :=
  repeat match goal with
         | |- context [nonempty (lit ?s)] =>
             change (nonempty (lit s)) with true
         | |- context [nonempty (lit ?s ++ ?t)] =>
             change (nonempty (lit s ++ t)) with true
         end.

(** Case analysis of one step of the loop on the world [w]: the event,
    the ticket it settles, the limit test and the platform's answers. *)
Ltac break_event w :=
  cbn [step]; unfold if_recognition;
  repeat match goal with
         | |- context [take_ticket ?t (pending w)] =>
             destruct (take_ticket t (pending w)) as [[[?|?|?|?] ?]|]
         end;
  unfold_handlers;
  try match goal with
      | |- context [Nat.leb MAX_SENTENCES ?n] =>
          destruct (Nat.leb MAX_SENTENCES n)
      end;
  repeat match goal with
         | |- context [fst (translate ?n ?r ?l)] =>
             destruct (fst (translate n r l))
         end;
  settle_messages;
  break_handler.

Section SessionInvariants.

Variable R : Type.
Variable rec_start rec_stop : R -> R * option exn.
Variable toLowerCase : jsstring -> jsstring.
Variable NumberToString : float -> jsstring.

Local Abbreviation step' := (step rec_start rec_stop toLowerCase NumberToString).
Local Abbreviation steps' := (steps rec_start rec_stop toLowerCase NumberToString).

(** X2: once [setListening] has run, the Start button is disabled exactly
    while the session listens and the Stop button exactly while it does
    not, whatever events follow. *)
Theorem buttons_follow_listening_step (w : World R) (ev : Event) :
  buttons_follow_listening w -> buttons_follow_listening (step' w ev).
Proof.
  unfold buttons_follow_listening. intros H. revert H.
  destruct ev; break_event w; cbn; intros [H1 H2]; split;
    solve [assumption | reflexivity].
Qed.

(** X3: [reachedMax] and [listening] are never both set: the limit turns
    listening off, and only a Start that clears [reachedMax] turns it on. *)
Theorem limit_excludes_listening_step (w : World R) (ev : Event) :
  limit_excludes_listening w -> limit_excludes_listening (step' w ev).
Proof.
  unfold limit_excludes_listening. intros H. revert H.
  destruct ev; break_event w; cbn; intros H;
    solve [exact H | reflexivity | discriminate].
Qed.

(** X4: only the Start button turns listening on. *)
Theorem only_start_listens (w : World R) (ev : Event) :
  listening w = false -> listening (step' w ev) = true -> ev = ClickStart.
Proof.
  intros H. revert H.
  destruct ev; try reflexivity; break_event w; cbn; intros H H';
    congruence.
Qed.

(** X5: the transcript buffer never begins or ends with white space:
    every event leaves it trimmed. *)
Theorem transcript_stays_trimmed (w : World R) (ev : Event) :
  trim (knHeard w) = knHeard w ->
  trim (knHeard (step' w ev)) = knHeard (step' w ev).
Proof.
  intros H. revert H.
  destruct ev; break_event w; cbn; intros H;
    solve [exact H | reflexivity | apply combined_text_trimmed].
Qed.

(** X6: translating, speaking and typing a reply never disturb the
    capture: the three flags, the transcript, the recognizer, the calls
    made on it and the Start and Stop buttons stay as they are. *)
Theorem reply_events_keep_capture (w : World R) (ev : Event) :
  reply_event ev = true ->
  let w' := step' w ev in
  listening w' = listening w /\ manualStop w' = manualStop w /\
  reachedMax w' = reachedMax w /\ knHeard w' = knHeard w /\
  recognition w' = recognition w /\ rec_calls w' = rec_calls w /\
  btnStart_disabled w' = btnStart_disabled w /\
  btnStop_disabled w' = btnStop_disabled w.
Proof.
  intros H. destruct ev; try discriminate H; clear H;
    break_event w; cbn; repeat split.
Qed.

(** X7: the recognizer's events never touch the translation side: the
    meaning, the reply and its translation, the synthesizer's calls, the
    suspended handlers and the Speak-again and Copy buttons stay as they
    are. *)
Theorem recognizer_events_keep_reply (w : World R) (ev : Event) :
  recognizer_event ev = true ->
  let w' := step' w ev in
  enMeaning w' = enMeaning w /\ myReplyEn w' = myReplyEn w /\
  knReply w' = knReply w /\ tts_calls w' = tts_calls w /\
  pending w' = pending w /\
  btnSpeakAgain_disabled w' = btnSpeakAgain_disabled w /\
  btnCopy_disabled w' = btnCopy_disabled w.
Proof.
  intros H. destruct ev; try discriminate H; clear H;
    break_event w; cbn; repeat split.
Qed.

(** The end event does nothing unless the session listens with neither
    flag set. *)
Lemma end_event_idle (w : World R) :
  recognition w = None \/ listening w = false \/
  manualStop w = true \/ reachedMax w = true ->
  step' w RecognizerEnd = w.
Proof.
  intros H. cbn [step]. unfold if_recognition.
  destruct (recognition w) as [r|] eqn:Hr; [|reflexivity].
  unfold_handlers.
  destruct H as [H | [H | [H | H]]]; [discriminate | | |]; rewrite H;
    destruct (listening w), (manualStop w), (reachedMax w); reflexivity.
Qed.

(** X8: after Stop, Reset, a recognizer error or a result that reaches
    the limit, the recognizer's end event restarts nothing and changes
    nothing. *)
Theorem no_restart_after_capture_ends (w : World R) (ev : Event) :
  ends_capture w ev ->
  step' (step' w ev) RecognizerEnd = step' w ev.
Proof.
  intros H. apply end_event_idle.
  destruct ev; cbn in H; try contradiction.
  - right. right. left. break_event w; reflexivity.
  - right. right. left. break_event w; reflexivity.
  - destruct (recognition w) as [r|] eqn:Hr.
    + right. right. right. rewrite step_result by congruence.
      now destruct (onresult_limit R rec_stop e w H) as [H1 _].
    + left. cbn [step]. unfold if_recognition. now rewrite Hr.
  - destruct (recognition w) as [r|] eqn:Hr.
    + right. left. cbn [step]. unfold if_recognition. rewrite Hr.
      break_handler; reflexivity.
    + left. cbn [step]. unfold if_recognition. now rewrite Hr.
Qed.

End SessionInvariants.

(** ** The buttons *)

Section ButtonProps.

Variable R : Type.
Variable rec_start rec_stop : R -> R * option exn.
Variable toLowerCase : jsstring -> jsstring.
Variable NumberToString : float -> jsstring.

Local Abbreviation step' := (step rec_start rec_stop toLowerCase NumberToString).
Local Abbreviation steps' := (steps rec_start rec_stop toLowerCase NumberToString).

(** X9: on a platform without speech recognition Start only reports it
    on the error line; no flag is reset, no field is cleared and the
    recognizer is not called. *)
Theorem start_without_recognition (w : World R) :
  hasSTT w = false ->
  step' w ClickStart =
  set_errorLine (lit "Speech recognition not supported. Use Chrome.") w.
Proof.
  intros H. cbn [step]. unfold_handlers. cbn. rewrite H. reflexivity.
Qed.

(** The end event in a listening session with neither flag set calls
    [start()] and swallows what it throws. *)
Lemma end_event_restarts (w : World R) (r : R) :
  recognition w = Some r ->
  listening w = true -> manualStop w = false -> reachedMax w = false ->
  step' w RecognizerEnd = recognizer_called CallStart (fst (rec_start r)) w.
Proof.
  intros Hr Hl Hm Hx. cbn [step]. unfold if_recognition, recognizer_called.
  rewrite Hr. unfold_handlers. rewrite Hl, Hm, Hx. cbn. rewrite Hr.
  destruct (rec_start r) as [r' [x|]]; reflexivity.
Qed.

(** X10: when the recognizer's [start()] returns, Start opens a fresh
    session: it listens, both flags and the four fields are cleared, the
    error line is empty and the recognizer was started once.  If the
    recognizer then ends by itself, it is started again and the session is
    otherwise unchanged. *)
Theorem start_opens_session (w : World R) (r : R) :
  hasSTT w = true ->
  recognition w = Some r ->
  snd (rec_start r) = None ->
  let w' := step' w ClickStart in
  listening w' = true /\ manualStop w' = false /\ reachedMax w' = false /\
  knHeard w' = [] /\ enMeaning w' = [] /\ myReplyEn w' = [] /\
  knReply w' = [] /\ errorLine w' = [] /\
  statusLine w' = lit "Listening for Kannada" ++ [ELLIPSIS] /\
  btnStart_disabled w' = true /\ btnStop_disabled w' = false /\
  rec_calls w' = rec_calls w ++ [CallStart] /\
  step' w' RecognizerEnd =
    recognizer_called CallStart (fst (rec_start (fst (rec_start r)))) w'.
Proof.
  intros Hs Hr Hx.
  assert (H : let w' := step' w ClickStart in
              recognition w' = Some (fst (rec_start r)) /\
              listening w' = true /\ manualStop w' = false /\
              reachedMax w' = false /\
              knHeard w' = [] /\ enMeaning w' = [] /\ myReplyEn w' = [] /\
              knReply w' = [] /\ errorLine w' = [] /\
              statusLine w' = lit "Listening for Kannada" ++ [ELLIPSIS] /\
              btnStart_disabled w' = true /\ btnStop_disabled w' = false /\
              rec_calls w' = rec_calls w ++ [CallStart]).
  { cbn [step]. unfold_handlers. cbn. rewrite Hs. cbn. rewrite Hr.
    destruct (rec_start r) as [r' o]. cbn in Hx. subst o. cbn.
    repeat split. }
  cbv zeta in H |- *. decompose [and] H. clear H.
  repeat split; try assumption.
  now apply end_event_restarts.
Qed.

(** X11: a translate button pressed on a blank text, empty or white
    space only, sends nothing: it reports the missing text on the error
    line and changes nothing else. *)
Theorem blank_text_is_not_translated (w : World R) :
  (trim (knHeard w) = [] ->
   step' w ClickTranslateToEn =
   set_errorLine (lit "No Kannada captured. Try again.") w) /\
  (trim (myReplyEn w) = [] ->
   step' w ClickTranslateToKn =
   set_errorLine (lit "Type your reply in English first.") w).
Proof.
  split; intros H; cbn [step]; unfold_handlers; cbn; rewrite H; reflexivity.
Qed.

(** X12: Speak again on an empty Kannada reply does nothing at all. *)
Theorem speak_again_needs_text (w : World R) :
  knReply w = [] -> step' w ClickSpeakAgain = w.
Proof.
  intros H. cbn [step]. unfold_handlers. cbn. rewrite H. reflexivity.
Qed.

End ButtonProps.

(** ** Translation and speech across their suspensions *)

Section ReplyProps.

Variable R : Type.
Variable rec_start rec_stop : R -> R * option exn.
Variable toLowerCase : jsstring -> jsstring.
Variable NumberToString : float -> jsstring.

Local Abbreviation step' := (step rec_start rec_stop toLowerCase NumberToString).
Local Abbreviation steps' := (steps rec_start rec_stop toLowerCase NumberToString).





(** X15: when the utterance of the reply ends or fails, the status
    becomes Done; a failure is reported on the error line, and the
    translated text and the Copy button stay as they are. *)
Theorem reply_speech_settles (w : World R) (t : nat) (u : Utterance)
        (outcome : option exn) :
  awaited t w = Some (ReplySpeech u) ->
  let w' := step' w (SpeechSettles t outcome) in
  statusLine w' = lit "Done." /\
  knReply w' = knReply w /\ btnCopy_disabled w' = btnCopy_disabled w /\
  errorLine w' =
    match outcome with
    | None => errorLine w
    | Some _ => lit "Speech failed. You can still copy the Kannada text."
    end.
Proof.
  intros Ha. cbn [step]. destruct (take_ticket_awaited _ _ _ Ha) as [rest ->].
  destruct outcome; unfold_handlers; settle_messages; cbn; repeat split.
Qed.

(** X16: the synthesizer is never given an utterance without a
    [cancel()] right before it, whatever the events. *)
Theorem cancel_before_speak_step (w : World R) (ev : Event) :
  cancel_before_speak (tts_calls w) ->
  cancel_before_speak (tts_calls (step' w ev)).
Proof.
  unfold cancel_before_speak. intros [us H]. revert H.
  destruct ev; break_event w; cbn; intros H;
    solve [ now exists us
          | eexists (us ++ [_]); rewrite flat_map_app, H; cbn;
            rewrite <- app_assoc; reflexivity ].
Qed.

(** X17: no handler lets an exception escape, whatever the recognizer's
    calls throw and however a translation or an utterance fails. *)
Theorem handlers_complete_normally (w : World R) :
  fst (btnStart_click rec_start w) = Normal tt /\
  fst (btnStop_click rec_stop w) = Normal tt /\
  fst (btnReset_click rec_stop w) = Normal tt /\
  (forall e, fst (onresult rec_stop e w) = Normal tt) /\
  (forall error, fst (onerror error w) = Normal tt) /\
  fst (onend rec_start w) = Normal tt /\
  fst (btnTranslateToEn_click w) = Normal tt /\
  (forall c, fst (btnTranslateToEn_resume NumberToString c w) = Normal tt) /\
  fst (btnTranslateToKn_click w) = Normal tt /\
  (forall c, fst (btnTranslateToKn_resume toLowerCase NumberToString c w)
             = Normal tt) /\
  (forall o, fst (btnTranslateToKn_spoken o w) = Normal tt) /\
  fst (btnSpeakAgain_click toLowerCase w) = Normal tt.
Proof.
  repeat split; intros; try apply onresult_normal;
    break_handler; reflexivity.
Qed.

End ReplyProps.

(** ** The cascade's traffic and results *)

Section CascadeTraffic.

Variable net : Network.
Variable r : TranslationRequest.

(** [translate] in one equation: the primary call, and on its failure
    the warning and the secondary call. *)
Lemma translate_unfold :
  translate net r [] =
  match fst (translateViaLibre net r []) with
  | Normal text => (Normal text, [Fetch (LibrePost r)])
  | Throw x =>
      (fst (translateViaMyMemory net r []),
       [Fetch (LibrePost r); ConsoleWarn x]
         ++ snd (translateViaMyMemory net r []))
  end.
Proof.
  unfold translate, try_catch. rewrite translateViaLibre_io.
  destruct (fst (translateViaLibre net r [])) as [text|x]; [reflexivity|].
  unfold emit, bind, modify. cbn. now rewrite translateViaMyMemory_io.
Qed.

Lemma translateViaMyMemory_spec (text : json) :
  fst (translateViaMyMemory net r []) = Normal text <->
  secondary_accepts net r text.
Proof.
  unfold secondary_accepts. unfold_io. cbn.
  destruct (isWellFormed (q r) && isWellFormed (source r)
            && isWellFormed (target r)); cbn.
  2:{ split; [discriminate | intros [H _]; discriminate]. }
  destruct (net (MyMemoryGet r)) as [|res] eqn:Hn; cbn.
  { split; [discriminate | intros (_ & res & data & H & _); discriminate]. }
  assert (Hres : forall res', Responds res = Responds res' -> res' = res)
    by (intros ? [=]; congruence).
  destruct (ok res) eqn:Hok; cbn.
  2:{ split; [discriminate|]. intros (_ & res' & data & H & Hok' & _).
      apply Hres in H. congruence. }
  destruct (body res) as [data|] eqn:Hb; cbn.
  2:{ split; [discriminate|]. intros (_ & res' & data & H & _ & Hb' & _).
      apply Hres in H. congruence. }
  destruct (get_optional (get_optional (Some data) (lit "responseData"))
                         (lit "translatedText")) as [v|] eqn:Hg; cbn.
  2:{ split; [discriminate|].
      intros (_ & res' & data' & H & _ & Hb' & Hg' & _).
      apply Hres in H. subst res'. congruence. }
  destruct (truthy (Some v)) eqn:Hv; cbn.
  - split.
    + intros [= <-]. split; [reflexivity|]. now exists res, data.
    + intros (_ & res' & data' & H & _ & Hb' & Hg' & _).
      apply Hres in H. subst res'. congruence.
  - split; [discriminate|].
    intros (_ & res' & data' & H & _ & Hb' & Hg' & Hv').
    apply Hres in H. subst res'. congruence.
Qed.

(** X18: a call of [translate] fetches at most twice and never the same
    endpoint twice: always the primary endpoint first, and the secondary
    endpoint only after the primary call has failed. *)
Theorem translate_fetches_at_most_twice :
  let sent := fetches (snd (translate net r [])) in
  (sent = [LibrePost r] \/ sent = [LibrePost r; MyMemoryGet r]) /\
  (sent = [LibrePost r; MyMemoryGet r] ->
   exists x, fst (translateViaLibre net r []) = Throw x) /\
  (forall text, primary_accepts net r text -> sent = [LibrePost r]).
Proof.
  cbv zeta. rewrite translate_unfold.
  destruct (fst (translateViaLibre net r [])) as [text|x] eqn:Hp; cbn.
  - split; [now left|]. split; [discriminate | reflexivity].
  - rewrite translateViaMyMemory_fetches.
    split; [|split].
    + destruct (isWellFormed (q r) && isWellFormed (source r)
                && isWellFormed (target r)); cbn; [now right | now left].
    + intros _. now exists x.
    + intros text Ha. apply translateViaLibre_spec in Ha. congruence.
Qed.

(** X19: the secondary provider's call succeeds exactly when the three
    parts of the request are well-formed UTF-16, the response has a success
    status and a JSON body, and [data?.responseData?.translatedText] is
    truthy, which is then the result.  On an ill-formed request it throws
    a URIError and fetches nothing. *)
Theorem secondary_call_outcome :
  (forall text, fst (translateViaMyMemory net r []) = Normal text <->
                secondary_accepts net r text) /\
  (isWellFormed (q r) && isWellFormed (source r) && isWellFormed (target r)
   = false ->
   translateViaMyMemory net r [] = (Throw URIError, [])).
Proof.
  split; [apply translateViaMyMemory_spec|].
  intros H. unfold_io. cbn. now rewrite H.
Qed.

(** X20: what [translate] returns is truthy; a returned string is never
    empty. *)
Theorem translate_returns_truthy (text : json) :
  fst (translate net r []) = Normal text ->
  truthy (Some text) = true /\ text <> JStr [].
Proof.
  intros H.
  assert (Ht : truthy (Some text) = true).
  { rewrite translate_unfold in H.
    destruct (fst (translateViaLibre net r [])) as [t1|x] eqn:Hp; cbn in H.
    - injection H as ->. apply translateViaLibre_spec in Hp.
      now destruct Hp as (res & data & _ & _ & _ & _ & _ & Hv).
    - apply translateViaMyMemory_spec in H.
      now destruct H as (_ & res & data & _ & _ & _ & _ & Hv). }
  split; [exact Ht|]. intros ->. discriminate Ht.
Qed.

End CascadeTraffic.

(** ** Voice selection, on any catalogue *)

(** X21: the voice [pickKannadaVoice] returns is one of the catalogue,
    and it returns null only for an empty catalogue. *)
Theorem picked_voice_is_installed (toLowerCase : jsstring -> jsstring)
        (voices : list Voice) :
  (forall v, pickKannadaVoice toLowerCase voices = Some v -> In v voices) /\
  (pickKannadaVoice toLowerCase voices = None <-> voices = []).
Proof.
  unfold pickKannadaVoice, byLang, or_else.
  destruct (find (fun v => JsString.eqb (lower_lang toLowerCase v) (lit "kn-in"))
                 voices) as [v1|] eqn:H1.
  { split; [intros v Hv; inversion Hv; subst; now apply find_some in H1|].
    split; [discriminate | intros ->; discriminate H1]. }
  destruct (find (fun v => startsWith (lower_lang toLowerCase v) (lit "kn"))
                 voices) as [v2|] eqn:H2.
  { split; [intros v Hv; inversion Hv; subst; now apply find_some in H2|].
    split; [discriminate | intros ->; discriminate H2]. }
  destruct (find (fun v => includes (lower_lang toLowerCase v) (lit "en-in"))
                 voices) as [v3|] eqn:H3.
  { split; [intros v Hv; inversion Hv; subst; now apply find_some in H3|].
    split; [discriminate | intros ->; discriminate H3]. }
  destruct voices as [|v0 vs]; cbn.
  - split; [discriminate | easy].
  - split; [intros v Hv; left; congruence | easy].
Qed.

(** ** A batch without new results *)

Lemma trimStart_white (s : jsstring) :
  forallb is_white_space s = true -> trimStart s = [].
Proof.
  induction s as [|c s IH]; cbn; [reflexivity|].
  destruct (is_white_space c); [exact IH | discriminate].
Qed.

Lemma trim_existing_text (k : jsstring) :
  trim k = k -> trim (existing_text k) = k.
Proof.
  intros H. unfold existing_text.
  destruct k as [|c k]; [exact H|]. cbn [nonempty].
  destruct (trim_fixed _ H) as [Hs He].
  unfold trim. rewrite trimStart_app.
  destruct (forallb is_white_space (c :: k)) eqn:Hw.
  - apply trimStart_white in Hw. rewrite Hs in Hw. discriminate.
  - rewrite Hs, trimEnd_app. exact He.
Qed.

Section EmptyBatch.

Variable R : Type.
Variable rec_start rec_stop : R -> R * option exn.
Variable toLowerCase : jsstring -> jsstring.
Variable NumberToString : float -> jsstring.

Local Abbreviation step' := (step rec_start rec_stop toLowerCase NumberToString).

(** X22: a result event whose [resultIndex] is past the end of its result
    list appends nothing: the transcript stays as it is, and below the
    sentence limit the whole session does. *)
Theorem batch_without_new_results (w : World R) (e : SpeechRecognitionEvent) :
  List.length (results e) <= resultIndex e ->
  trim (knHeard w) = knHeard w ->
  knHeard (step' w (RecognizerResult e)) = knHeard w /\
  (sentenceCount (knHeard w) < MAX_SENTENCES ->
   step' w (RecognizerResult e) = w).
Proof.
  intros Hi Ht.
  assert (Hc : combined_text (knHeard w) e = knHeard w).
  { rewrite combined_text_eq. unfold appended_text, new_results.
    rewrite (skipn_all2 _ Hi). cbn. rewrite app_nil_r.
    now apply trim_existing_text. }
  destruct (recognition w) as [r|] eqn:Hr.
  - rewrite step_result by congruence. rewrite onresult_knHeard.
    split; [exact Hc|]. intros Hn.
    rewrite onresult_below by (rewrite Hc; exact Hn).
    rewrite Hc. now destruct w.
  - cbn [step]. unfold if_recognition. rewrite Hr. now split.
Qed.

End EmptyBatch.

(** ** The service worker's fetch handler *)

(** X23: the fetch handler never throws.  A request to a translation
    endpoint goes to the network and is answered with the network's
    response, the cache being asked only for the offline page and only
    when the network fails.  Any other request is answered from the cache
    when the cache holds it, without any use of the network, and otherwise
    like a translation request. *)
Theorem worker_routes_requests (network : FetchOutcome)
        (cached offline : option Response) (u : Url) :
  let answer := fst (onfetch network cached offline u []) in
  let calls := snd (onfetch network cached offline u []) in
  let from_network :=
    match network with
    | Responds res => (Normal (Some res), [WorkerFetch])
    | NetworkFailure => (Normal offline, [WorkerFetch; MatchOffline])
    end in
  (is_api_request u = true -> (answer, calls) = from_network) /\
  (is_api_request u = false ->
   match cached with
   | Some res => answer = Normal (Some res) /\ calls = [MatchRequest]
   | None => (answer, calls) = (fst from_network, MatchRequest :: snd from_network)
   end).
Proof.
  cbv zeta. unfold onfetch, fetch_or_offline, worker_fetch, called,
    try_catch, bind, ret, throw, modify.
  split; intros ->.
  - destruct network; reflexivity.
  - destruct cached; [now split|]. destruct network; reflexivity.
Qed.

(** Both translation endpoints are requests the worker sends to the
    network first. *)
Lemma translation_urls_are_api (r : HttpRequest) :
  is_api_request (url_of r) = true.
Proof. destruct r; reflexivity. Qed.

Lemma behind_worker_eq (cache : HttpRequest -> option Response)
      (offline : option Response) (net : Network) (r : HttpRequest) :
  behind_worker cache offline net r =
  match net r with
  | Responds res => Responds res
  | NetworkFailure =>
      match offline with
      | Some off => Responds off
      | None => NetworkFailure
      end
  end.
Proof.
  unfold behind_worker, onfetch. rewrite translation_urls_are_api.
  unfold fetch_or_offline, worker_fetch, called,
    try_catch, bind, ret, throw, modify.
  destruct (net r); [destruct offline|]; reflexivity.
Qed.

(** X24: with the service worker in front of the network, [translate]
    returns a text exactly when it does without the worker, and the same
    text: the offline page the worker serves when the network fails is
    not JSON, so each provider's call still fails then. *)
Theorem translate_behind_worker (cache : HttpRequest -> option Response)
        (offline : option Response) (net : Network)
        (r : TranslationRequest) (text : json) :
  (forall off, offline = Some off -> body off = None) ->
  fst (translate (behind_worker cache offline net) r []) = Normal text <->
  fst (translate net r []) = Normal text.
Proof.
  intros Hoff.
  assert (H1 : forall t,
             fst (translateViaLibre (behind_worker cache offline net) r []) = Normal t
             <-> fst (translateViaLibre net r []) = Normal t).
  { intros t. unfold_io. cbn. rewrite behind_worker_eq.
    destruct (net (LibrePost r)) as [|res]; [|reflexivity].
    destruct offline as [off|]; [|reflexivity]. cbn.
    destruct (ok off); cbn; [|easy].
    rewrite (Hoff off eq_refl). cbn. easy. }
  assert (H2 : forall t,
             fst (translateViaMyMemory (behind_worker cache offline net) r []) = Normal t
             <-> fst (translateViaMyMemory net r []) = Normal t).
  { intros t. unfold_io. cbn.
    destruct (isWellFormed (q r) && isWellFormed (source r)
              && isWellFormed (target r)); cbn; [|reflexivity].
    rewrite behind_worker_eq.
    destruct (net (MyMemoryGet r)) as [|res]; [|reflexivity].
    destruct offline as [off|]; [|reflexivity]. cbn.
    destruct (ok off); cbn; [|easy].
    rewrite (Hoff off eq_refl). cbn. easy. }
  rewrite !translate_unfold.
  destruct (fst (translateViaLibre (behind_worker cache offline net) r []))
    as [t1|x1];
    destruct (fst (translateViaLibre net r [])) as [t2|x2]; cbn.
  - apply H1.
  - discriminate (proj1 (H1 t1) eq_refl).
  - discriminate (proj2 (H1 t2) eq_refl).
  - apply H2.
Qed.

(** ** The further properties on the concrete platform *)

Import Cases.

Lemma buttons_follow_listening_witness :
  buttons_follow_listening (Platform.step started ClickStop).
Proof.
  apply (buttons_follow_listening_step Platform.R Platform.rec_start
           Platform.rec_stop asciiToLowerCase Platform.NumberToString
           started ClickStop).
  split; reflexivity.
Defined.

Lemma limit_excludes_listening_witness :
  limit_excludes_listening
    (Platform.step started (RecognizerResult (first_batch five_sentences true))).
Proof.
  apply (limit_excludes_listening_step Platform.R Platform.rec_start
           Platform.rec_stop asciiToLowerCase Platform.NumberToString
           started (RecognizerResult (first_batch five_sentences true))).
  intros H. discriminate H.
Defined.

Lemma only_start_listens_witness : ClickStart = ClickStart.
Proof.
  apply (only_start_listens Platform.R Platform.rec_start
           Platform.rec_stop asciiToLowerCase Platform.NumberToString
           Platform.initial ClickStart); reflexivity.
Defined.

Lemma transcript_stays_trimmed_witness :
  let w' := Platform.step heard_ab
              (RecognizerResult (second_batch (lit "ab") (lit " cd ") true)) in
  trim (knHeard w') = knHeard w'.
Proof.
  apply (transcript_stays_trimmed Platform.R Platform.rec_start
           Platform.rec_stop asciiToLowerCase Platform.NumberToString heard_ab).
  vm_compute. reflexivity.
Defined.

Lemma reply_events_keep_capture_witness :
  listening (Platform.step started ClickTranslateToEn) = listening started.
Proof.
  apply (reply_events_keep_capture Platform.R Platform.rec_start
           Platform.rec_stop asciiToLowerCase Platform.NumberToString
           started ClickTranslateToEn).
  reflexivity.
Defined.

Lemma recognizer_events_keep_reply_witness :
  knReply (Platform.step reply_spoken RecognizerEnd) = knReply reply_spoken.
Proof.
  apply (recognizer_events_keep_reply Platform.R Platform.rec_start
           Platform.rec_stop asciiToLowerCase Platform.NumberToString
           reply_spoken RecognizerEnd).
  reflexivity.
Defined.

Lemma no_restart_after_capture_ends_witness :
  Platform.step (Platform.step started ClickStop) RecognizerEnd =
  Platform.step started ClickStop.
Proof.
  apply (no_restart_after_capture_ends Platform.R Platform.rec_start
           Platform.rec_stop asciiToLowerCase Platform.NumberToString
           started ClickStop).
  exact I.
Defined.

Lemma start_without_recognition_witness :
  Platform.step no_recognition ClickStart =
  set_errorLine (lit "Speech recognition not supported. Use Chrome.")
                no_recognition.
Proof.
  apply (start_without_recognition Platform.R Platform.rec_start
           Platform.rec_stop asciiToLowerCase Platform.NumberToString
           no_recognition).
  reflexivity.
Defined.

Lemma start_opens_session_witness :
  listening (Platform.step stopped_with_text ClickStart) = true.
Proof.
  apply (start_opens_session Platform.R Platform.rec_start
           Platform.rec_stop asciiToLowerCase Platform.NumberToString
           stopped_with_text false); reflexivity.
Defined.

Lemma blank_text_is_not_translated_witness :
  Platform.step blank_reply ClickTranslateToKn =
  set_errorLine (lit "Type your reply in English first.") blank_reply.
Proof.
  apply (blank_text_is_not_translated Platform.R Platform.rec_start
           Platform.rec_stop asciiToLowerCase Platform.NumberToString
           blank_reply).
  reflexivity.
Defined.

Lemma speak_again_needs_text_witness :
  Platform.step started ClickSpeakAgain = started.
Proof.
  apply (speak_again_needs_text Platform.R Platform.rec_start
           Platform.rec_stop asciiToLowerCase Platform.NumberToString started).
  reflexivity.
Defined.



Lemma reply_speech_settles_witness :
  let w' := Platform.step reply_spoken
              (SpeechSettles 1 (Some (ThrownString (lit "interrupted")))) in
  knReply w' = namaskara /\
  errorLine w' = lit "Speech failed. You can still copy the Kannada text.".
Proof.
  intros w'.
  destruct (reply_speech_settles Platform.R Platform.rec_start
              Platform.rec_stop asciiToLowerCase Platform.NumberToString
              reply_spoken 1 (utterance_for asciiToLowerCase [] namaskara)
              (Some (ThrownString (lit "interrupted"))) eq_refl)
    as (_ & H1 & _ & H2).
  split; [exact H1 | exact H2].
Defined.

Lemma cancel_before_speak_witness :
  cancel_before_speak (tts_calls reply_spoken).
Proof.
  apply (cancel_before_speak_step Platform.R Platform.rec_start
           Platform.rec_stop asciiToLowerCase Platform.NumberToString
           reply_sent (TranslateSettles 0 libre_answers)).
  now exists [].
Defined.

Lemma translate_returns_truthy_witness :
  truthy (Some (JStr namaskara)) = true /\ JStr namaskara <> JStr [].
Proof.
  apply (translate_returns_truthy libre_down hello). reflexivity.
Defined.

Lemma batch_without_new_results_witness :
  Platform.step heard_ab (RecognizerResult repeated_batch) = heard_ab.
Proof.
  destruct (batch_without_new_results Platform.R Platform.rec_start
              Platform.rec_stop asciiToLowerCase Platform.NumberToString
              heard_ab repeated_batch) as [_ H].
  - cbn. lia.
  - vm_compute. reflexivity.
  - apply H. vm_compute. lia.
Defined.

Lemma translate_behind_worker_witness :
  fst (translate (behind_worker (fun _ => None) (Some offline_page) libre_down)
                 hello [])
  = Normal (JStr namaskara).
Proof.
  apply (translate_behind_worker (fun _ => None) (Some offline_page)
           libre_down hello (JStr namaskara)).
  - intros off H. injection H as <-. reflexivity.
  - reflexivity.
Defined.
